(** * Task management app (src/App.jsx): list pipeline, validation, repository

    A shallow embedding of the pure parts of [App.jsx]:
    - [validateTaskForm], the validation rule of the task form;
    - [useTasks]: the initial load from [localStorage] and the three
      repository updates [addTask], [updateTask], [deleteTask];
    - [TaskList]: [sortedTasks], [filteredTasks], [totalPages],
      [currentTasks] and the page-correction effect.

    Data.  A JavaScript string is a sequence of UTF-16 code units; the model
    uses [string] and so covers the code units below 256, where [trim],
    [toLowerCase], [includes] and the [<] of strings are given in full
    (module [JS]).  A task, a form-values object and an errors object are
    JavaScript objects whose fields hold strings: they are finite maps
    [gmap string string], a field that is absent reads as [None]
    ([undefined]).  An array is a [list].  Code that can throw returns an
    [outcome]. *)

From Stdlib Require Import ZArith List String Ascii Bool Lia Permutation Sorted.
From stdpp Require Import base option strings gmap.
Import ListNotations.

Local Open Scope string_scope.
Local Open Scope list_scope.
Local Open Scope Z_scope.

(** ** Exceptions *)

Inductive exn : Type :=
| TypeError      (* a property read on [undefined] *)
| SyntaxError    (* [JSON.parse] on malformed text *)
| SecurityError. (* [localStorage] not accessible *)

Inductive outcome (A : Type) : Type :=
| Ret (a : A)
| Throw (e : exn).
Arguments Ret {A} a.
Arguments Throw {A} e.

#[global] Instance outcome_ret : MRet outcome := fun A a => Ret a.
#[global] Instance outcome_bind : MBind outcome := fun A B k m =>
  match m with
  | Ret a => k a
  | Throw e => Throw e
  end.

(** [try { body } catch (error) { handler }] *)
Definition try_catch {A} (body : outcome A) (handler : exn -> outcome A)
  : outcome A :=
  match body with
  | Ret a => Ret a
  | Throw e => handler e
  end.

(** ** The JavaScript built-ins the program calls *)

Module JS.

(** Truthiness of a value that is a string or [undefined]: [undefined]
    and the empty string are falsy. *)
Definition truthy (v : option string) : bool :=
  match v with
  | Some s => negb (s =? "")%string
  | None => false
  end.

(** [v || ''] *)
Definition or_empty (v : option string) : string :=
  match v with
  | Some s => s
  | None => ""
  end.

(** White space and line terminators among the code units below 256:
    TAB, LF, VT, FF, CR, SPACE and NBSP. *)
Definition isWhiteSpace (c : ascii) : bool :=
  let n := nat_of_ascii c in
  ((9 <=? n)%nat && (n <=? 13)%nat) || (n =? 32)%nat || (n =? 160)%nat.

Fixpoint trimStart (s : string) : string :=
  match s with
  | EmptyString => EmptyString
  | String c s' => if isWhiteSpace c then trimStart s' else s
  end.

Fixpoint trimEnd (s : string) : string :=
  match s with
  | EmptyString => EmptyString
  | String c s' =>
      match trimEnd s' with
      | EmptyString => if isWhiteSpace c then EmptyString else String c EmptyString
      | r => String c r
      end
  end.

(** [s.trim()] *)
Definition trim (s : string) : string := trimEnd (trimStart s).

(** Lower-casing of one code unit below 256: A-Z, and the Latin-1
    capitals U+00C0..U+00DE except the multiplication sign U+00D7. *)
Definition lowerChar (c : ascii) : ascii :=
  let n := nat_of_ascii c in
  if ((65 <=? n)%nat && (n <=? 90)%nat)
     || ((192 <=? n)%nat && (n <=? 222)%nat && negb (n =? 215)%nat)
  then ascii_of_nat (n + 32) else c.

(** [s.toLowerCase()] *)
Fixpoint toLowerCase (s : string) : string :=
  match s with
  | EmptyString => EmptyString
  | String c s' => String (lowerChar c) (toLowerCase s')
  end.

(** [s.includes(sub)]: [sub] occurs in [s] at some position. *)
Fixpoint includes (s sub : string) : bool :=
  if String.prefix sub s then true
  else match s with
       | EmptyString => false
       | String _ s' => includes s' sub
       end.

(** [a < b] on strings: code units compared from the left. *)
Definition lt (a b : string) : bool := String.ltb a b.

(** [Array.prototype.sort(compareFn)].  ECMAScript (since 2019) requires
    the sort to be stable; for a consistent comparator the result is then
    determined by the input (see [sort_unique] below), so any stable
    algorithm is a model.  This one inserts each element, from the last
    to the first, in front of the first element it is not greater than. *)
Fixpoint insert {A} (compareFn : A -> A -> Z) (x : A) (l : list A) : list A :=
  match l with
  | [] => [x]
  | y :: l' =>
      if 0 <? compareFn x y then y :: insert compareFn x l'
      else x :: y :: l'
  end.

Fixpoint sort {A} (compareFn : A -> A -> Z) (l : list A) : list A :=
  match l with
  | [] => []
  | x :: l' => insert compareFn x (sort compareFn l')
  end.

(** [Array.prototype.filter(callback)] for a callback that can throw: the
    elements are visited from the left and the first exception ends the
    call. *)
Fixpoint filter {A} (callback : A -> outcome bool) (l : list A)
  : outcome (list A) :=
  match l with
  | [] => Ret []
  | x :: l' =>
      b ← callback x;
      r ← filter callback l';
      Ret (if b : bool then x :: r else r)
  end.

(** [Array.prototype.slice(start, end)]: a negative index counts from the
    end, both are clamped to the array. *)
Definition slice {A} (l : list A) (start end_ : Z) : list A :=
  let len := Z.of_nat (length l) in
  let k := if start <? 0 then Z.max (len + start) 0 else Z.min start len in
  let final := if end_ <? 0 then Z.max (len + end_) 0 else Z.min end_ len in
  firstn (Z.to_nat (final - k)) (skipn (Z.to_nat k) l).

(** [Math.ceil(a / b)] for integers [a] and [b > 0]: the least integer
    not below the quotient.  (The quotient of an array length by 5 is
    far from the range where the rounding of [/] could reach the next
    integer.) *)
Definition ceil_div (a b : Z) : Z := - ((- a) / b).

End JS.

(** ** Objects *)

Abbreviation Obj := (gmap string string).
Abbreviation Task := (gmap string string).

(** [o.f.m()] for a string method [m]: reading a property of [undefined]
    throws a [TypeError]. *)
Definition get_str (o : Obj) (f : string) : outcome string :=
  match o !! f with
  | Some s => Ret s
  | None => Throw TypeError
  end.

(** ** Validation rule (App.jsx, validateTaskForm) *)

Definition title_required : string := "Title is required.".
Definition title_too_short : string := "Title must be at least 3 characters.".
Definition description_required : string := "Description is required.".
Definition dueDate_required : string := "Due Date is required.".

(** [!v || v.trim() === ''] *)
Definition blank (v : option string) : bool :=
  negb (JS.truthy v) || (JS.trim (JS.or_empty v) =? "")%string.

Definition validateTaskForm (values : Obj) : Obj :=
  let errors : Obj := ∅ in
  let errors :=
    if blank (values !! "title") then
      <["title" := title_required]> errors
    else if (String.length (JS.or_empty (values !! "title")) <? 3)%nat then
      <["title" := title_too_short]> errors
    else errors in
  let errors :=
    if blank (values !! "description") then
      <["description" := description_required]> errors
    else errors in
  let errors :=
    if negb (JS.truthy (values !! "dueDate")) then
      <["dueDate" := dueDate_required]> errors
    else errors in
  errors.

(** useForm's [validate]: [Object.keys(newErrors).length === 0] *)
Definition validate (values : Obj) : bool :=
  (size (validateTaskForm values) =? 0)%nat.

(** ** Task repository (App.jsx, useTasks) *)

Definition localStorageKey : string := "reactTaskApp_tasks".

(** The browser's [localStorage]: a string-keyed store that may refuse
    access altogether. *)
Record Storage : Type := {
  accessible : bool;
  items : gmap string string
}.

Definition getItem (st : Storage) (k : string) : outcome (option string) :=
  if accessible st then Ret (items st !! k) else Throw SecurityError.

Section Load.
(** [JSON.parse], applied to the stored text, returns a value of some type
    [V] (for text that the app wrote itself, an array of tasks) or throws a
    [SyntaxError]; [emptyArray] is the value [[]]. *)
Context {V : Type}.
Variable emptyArray : V.
Variable JSON_parse : string -> outcome V.

(** The body of the [try] of the lazy initial state. *)
Definition readStored (st : Storage) : outcome V :=
  storedTasks ← getItem st localStorageKey;
  if JS.truthy storedTasks then JSON_parse (JS.or_empty storedTasks)
  else Ret emptyArray.

(** The initial state of [tasks]; the [catch] logs to the console and
    returns the empty array. *)
Definition loadTasks (st : Storage) : outcome V :=
  try_catch (readStored st) (fun error => Ret emptyArray).
End Load.

(** [addTask]; [id] stands for the fresh
    [Date.now().toString(36) + Math.random().toString(36).substring(2)]. *)
Definition addTask (id : string) (newTaskData : Obj) (prev : list Task)
  : list Task :=
  let newTask := <["id" := id]> newTaskData in
  prev ++ [newTask].

Definition updateTask (updatedTask : Task) (prev : list Task) : list Task :=
  map (fun task =>
         if bool_decide (task !! "id" = updatedTask !! "id")
         then updatedTask else task) prev.

Definition deleteTask (taskId : string) (prev : list Task) : list Task :=
  List.filter (fun task => negb (bool_decide (task !! "id" = Some taskId))) prev.

(** [tasks.find(t => t.id === id)] (App.jsx, taskToEdit and DeleteModal) *)
Definition findTask (id : option string) (tasks : list Task) : option Task :=
  List.find (fun t => bool_decide (t !! "id" = id)) tasks.

(** ** List screen (App.jsx, TaskList) *)

Record SortConfig : Type := {
  key : string;
  direction : string
}.

Definition tasksPerPage : Z := 5.

(** The comparator handed to [sort]. *)
Definition compareTasks (sortConfig : SortConfig) (a b : Task) : Z :=
  let aValue := JS.or_empty (a !! key sortConfig) in
  let bValue := JS.or_empty (b !! key sortConfig) in
  if JS.lt aValue bValue then
    (if (direction sortConfig =? "asc")%string then -1 else 1)
  else if JS.lt bValue aValue then
    (if (direction sortConfig =? "asc")%string then 1 else -1)
  else 0.

Definition sortedTasks (tasks : list Task) (sortConfig : SortConfig)
  : list Task :=
  let sortableTasks := tasks in
  if JS.truthy (Some (key sortConfig))
  then JS.sort (compareTasks sortConfig) sortableTasks
  else sortableTasks.

(** [task.f.toLowerCase().includes(lowerCaseSearch)] *)
Definition fieldIncludes (task : Task) (f lowerCaseSearch : string)
  : outcome bool :=
  v ← get_str task f;
  Ret (JS.includes (JS.toLowerCase v) lowerCaseSearch).

(** [a || b] where both sides can throw: [b] is evaluated only when [a] is
    false. *)
Definition orElse (a b : outcome bool) : outcome bool :=
  x ← a; if x : bool then Ret true else b.

(** The callback of the search filter. *)
Definition matchesSearch (lowerCaseSearch : string) (task : Task)
  : outcome bool :=
  orElse (fieldIncludes task "title" lowerCaseSearch)
    (orElse (fieldIncludes task "description" lowerCaseSearch)
       (orElse (fieldIncludes task "status" lowerCaseSearch)
          (fieldIncludes task "priority" lowerCaseSearch))).

Definition filteredTasks (sortedTasks : list Task) (searchTerm : string)
  : outcome (list Task) :=
  if negb (JS.truthy (Some searchTerm)) then Ret sortedTasks
  else
    let lowerCaseSearch := JS.toLowerCase searchTerm in
    JS.filter (matchesSearch lowerCaseSearch) sortedTasks.

Definition totalPages (filteredTasks : list Task) : Z :=
  JS.ceil_div (Z.of_nat (length filteredTasks)) tasksPerPage.

Definition currentTasks (filteredTasks : list Task) (currentPage : Z)
  : list Task :=
  let startIndex := (currentPage - 1) * tasksPerPage in
  JS.slice filteredTasks startIndex (startIndex + tasksPerPage).

(** The page-correction effect: the value of [currentPage] after it ran. *)
Definition pageEffect (currentPage totalPages : Z) : Z :=
  if (currentPage >? totalPages) && (totalPages >? 0) then totalPages
  else if totalPages =? 0 then 1
  else currentPage.

Definition requestSort (k : string) (sortConfig : SortConfig) : SortConfig :=
  let direction :=
    if (key sortConfig =? k)%string && (direction sortConfig =? "asc")%string
    then "desc" else "asc" in
  {| key := k; direction := direction |}.

(** What the list screen shows: the rows of the current page. *)
Definition displayedPage (tasks : list Task) (searchTerm : string)
    (sortConfig : SortConfig) (currentPage : Z) : outcome (list Task) :=
  filtered ← filteredTasks (sortedTasks tasks sortConfig) searchTerm;
  Ret (currentTasks filtered currentPage).

(** The pipeline in the order the specification gives it: filter the raw
    tasks, sort what is left, take the page. *)
Definition specPipeline (tasks : list Task) (searchTerm : string)
    (sortConfig : SortConfig) (currentPage : Z) : outcome (list Task) :=
  filtered ← filteredTasks tasks searchTerm;
  Ret (currentTasks (sortedTasks filtered sortConfig) currentPage).

(** *** The list screen as a state machine *)

Record ListState : Type := {
  tasks : list Task;            (* the [tasks] prop *)
  sortConfig : SortConfig;
  searchTerm : string;
  currentPage : Z
}.

Definition initialState (tasks : list Task) : ListState :=
  {| tasks := tasks;
     sortConfig := {| key := "dueDate"; direction := "asc" |};
     searchTerm := "";
     currentPage := 1 |}.

Definition filteredOf (st : ListState) : outcome (list Task) :=
  filteredTasks (sortedTasks (tasks st) (sortConfig st)) (searchTerm st).

Inductive event : Type :=
| TasksChanged (newTasks : list Task) (* the repository changed *)
| SearchChanged (value : string)      (* typing in the search box *)
| HeaderClicked (k : string)          (* a click on a column header *)
| Previous
| Next
| PageClicked (page : Z).

(** The keys of the sortable headers. *)
Definition sortable (k : string) : bool :=
  (k =? "title")%string || (k =? "status")%string
  || (k =? "priority")%string || (k =? "dueDate")%string.

(** The state an event handler leaves; [None] when the screen does not
    offer the event: nothing is mounted once a render threw, the page
    buttons exist only when there are at least two pages, a disabled button
    does not fire, and only the sortable headers react. *)
Definition handle (e : event) (st : ListState) : option ListState :=
  match filteredOf st with
  | Throw _ => None
  | Ret filtered =>
      let totalPages := totalPages filtered in
      let setCurrentPage p :=
        {| tasks := tasks st; sortConfig := sortConfig st;
           searchTerm := searchTerm st; currentPage := p |} in
      match e with
      | TasksChanged newTasks =>
          Some {| tasks := newTasks; sortConfig := sortConfig st;
                  searchTerm := searchTerm st; currentPage := currentPage st |}
      | SearchChanged value =>
          Some {| tasks := tasks st; sortConfig := sortConfig st;
                  searchTerm := value; currentPage := 1 |}
      | HeaderClicked k =>
          if sortable k then
            Some {| tasks := tasks st; sortConfig := requestSort k (sortConfig st);
                    searchTerm := searchTerm st; currentPage := currentPage st |}
          else None
      | Previous =>
          if (totalPages >? 1) && negb (currentPage st =? 1)
          then Some (setCurrentPage (Z.max 1 (currentPage st - 1)))
          else None
      | Next =>
          if (totalPages >? 1) && negb (currentPage st =? totalPages)
          then Some (setCurrentPage (Z.min totalPages (currentPage st + 1)))
          else None
      | PageClicked page =>
          if (totalPages >? 1) && (1 <=? page) && (page <=? totalPages)
          then Some (setCurrentPage page)
          else None
      end
  end.

(** The render that follows a state change, and the effect it schedules.
    A render that throws leaves nothing to correct. *)
Definition runEffect (st : ListState) : ListState :=
  match filteredOf st with
  | Throw _ => st
  | Ret filtered =>
      {| tasks := tasks st; sortConfig := sortConfig st;
         searchTerm := searchTerm st;
         currentPage := pageEffect (currentPage st) (totalPages filtered) |}
  end.

(** The states of a mounted list screen, each taken after its effect. *)
Inductive reachable : ListState -> Prop :=
| reach_mount tasks : reachable (runEffect (initialState tasks))
| reach_event st e st' :
    reachable st -> handle e st = Some st' -> reachable (runEffect st').

(** The invariant of the page number. *)
Definition page_in_range (currentPage totalPages : Z) : Prop :=
  (totalPages = 0 /\ currentPage = 1) \/ (1 <= currentPage <= totalPages).

(** ** Specification-side notions *)

(** A string that holds white space only (the empty string included). *)
Definition whitespace_only (s : string) : Prop :=
  Forall (fun c => JS.isWhiteSpace c = true) (list_ascii_of_string s).

(** A title, description, ... that is absent, empty or white space only. *)
Definition missing (v : option string) : Prop :=
  match v with
  | None => True
  | Some s => whitespace_only s
  end.

(** The title rule in the words of the specification: "required" exactly
    for a missing title, otherwise "at least 3 characters" exactly when the
    trimmed length is below 3. *)
Definition title_rule_as_specified (values : Obj) : Prop :=
  let e := validateTaskForm values !! "title" in
  let title := JS.or_empty (values !! "title") in
  (e = Some title_required <-> missing (values !! "title")) /\
  (e = Some title_too_short <->
     ~ missing (values !! "title") /\ (String.length (JS.trim title) < 3)%nat).

(** The invariant of the data model: no two records of the collection
    carry the same id. *)
Definition unique_ids (l : list Task) : Prop :=
  List.NoDup (map (fun t : Task => t !! "id") l).

(** The order a comparator induces: [x] is not greater than [y]; and
    neither is greater than the other. *)
Definition cmp_le {A} (cmp : A -> A -> Z) (x y : A) : Prop := cmp x y <= 0.

Definition cmp_eqvb {A} (cmp : A -> A -> Z) (x y : A) : bool :=
  (cmp x y <=? 0) && (cmp y x <=? 0).

(** The value of a task on the sort key, a missing one read as the empty
    string. *)
Definition sortValue (sortConfig : SortConfig) (t : Task) : string :=
  JS.or_empty (t !! key sortConfig).

(** The tasks whose value on the sort key is [v]. *)
Definition hasSortValue (sortConfig : SortConfig) (v : string) (t : Task)
  : bool :=
  (sortValue sortConfig t =? v)%string.

(** [a] occurs before [b] in [l]. *)
Definition occurs_before (a b : Task) (l : list Task) : Prop :=
  exists l1 l2 l3, l = l1 ++ a :: l2 ++ b :: l3.

(** A callback that throws on [x]; one that returns [true] on [x]. *)
Definition throws {A} (callback : A -> outcome bool) (x : A) : bool :=
  match callback x with
  | Throw _ => true
  | Ret _ => false
  end.

Definition accepts {A} (callback : A -> outcome bool) (x : A) : bool :=
  match callback x with
  | Ret b => b
  | Throw _ => false
  end.

(** [sub] is a substring of [s]. *)
Definition is_substring (sub s : string) : Prop :=
  exists pre post, s = (pre ++ sub ++ post)%string.

Definition searchableFields : list string :=
  ["title"; "description"; "status"; "priority"].

(** A task that has the four searchable fields. *)
Definition searchable (t : Task) : Prop :=
  Forall (fun f => is_Some (t !! f)) searchableFields.

(** The lower-cased search term is a substring of the lower-cased content
    of field [f]. *)
Definition field_hit (searchTerm : string) (t : Task) (f : string) : Prop :=
  exists v, t !! f = Some v /\
            is_substring (JS.toLowerCase searchTerm) (JS.toLowerCase v).

Definition search_hit (searchTerm : string) (t : Task) : Prop :=
  field_hit searchTerm t "title" \/ field_hit searchTerm t "description" \/
  field_hit searchTerm t "status" \/ field_hit searchTerm t "priority".

(** Sample data. *)
Definition mkTask (id title description status priority dueDate : string)
  : Task :=
  <["id" := id]> (<["title" := title]> (<["description" := description]>
    (<["status" := status]> (<["priority" := priority]>
      (<["dueDate" := dueDate]> ∅))))).

Definition task1 : Task :=
  mkTask "t1" "Write report" "Quarterly numbers" "Pending" "High" "2024-05-01".
Definition task2 : Task :=
  mkTask "t2" "Buy milk" "Two litres" "Completed" "Low" "2024-04-01".
Definition task3 : Task :=
  mkTask "t3" "Call plumber" "Kitchen sink" "Pending" "Medium" "2024-05-01".

(** A task whose searchable fields are all empty strings. *)
Definition emptyTask : Task :=
  <["title" := ""]> (<["description" := ""]> (<["status" := ""]>
    (<["priority" := ""]> ∅))).

(** ** Form state (App.jsx, useForm) *)

Module Form.

(** The state of the hook.  A field of [errors] that was set to [undefined]
    stays a key of the object, so the values of [errors] are strings or
    [undefined]. *)
Record State : Type := {
  values : Obj;
  errors : gmap string (option string)
}.

Definition init (initialValues : Obj) : State :=
  {| values := initialValues; errors := ∅ |}.

(** [errors[name]] *)
Definition errorOf (st : State) (name : string) : option string :=
  match errors st !! name with
  | Some v => v
  | None => None
  end.

(** [handleChange] for an event whose target has the given [name] and
    [value]. *)
Definition handleChange (name value : string) (st : State) : State :=
  {| values := <[name := value]> (values st);
     errors := if JS.truthy (errorOf st name)
               then <[name := None]> (errors st)
               else errors st |}.

(** [validate]: the state it leaves and the boolean it returns. *)
Definition validate (validateFn : Obj -> Obj) (st : State) : State * bool :=
  let newErrors := validateFn (values st) in
  ({| values := values st; errors := Some <$> newErrors |},
   (size newErrors =? 0)%nat).

End Form.

(** ** Task form (App.jsx, TaskForm) *)

(** [taskToEdit || { ... }]; [today] stands for
    [new Date().toISOString().split('T')[0]]. *)
Definition initialValues (taskToEdit : option Task) (today : string) : Obj :=
  match taskToEdit with
  | Some t => t
  | None =>
      <["id" := ""]> (<["title" := ""]> (<["description" := ""]>
        (<["status" := "Pending"]> (<["priority" := "Medium"]>
          (<["dueDate" := today]> ∅)))))
  end.

(** [handleSubmit]: the form state it leaves and the values handed to
    [onSave], if any. *)
Definition handleSubmit (st : Form.State) : Form.State * option Obj :=
  let (st', valid) := Form.validate validateTaskForm st in
  (st', if valid then Some (Form.values st) else None).

(** What the user can do to the form: change an input, or submit. *)
Inductive formEvent : Type :=
| Typed (name value : string)
| Submitted.

Definition priorityOptions : list string := ["Low"; "Medium"; "High"].
Definition statusOptions : list string := ["Pending"; "In Progress"; "Completed"].

(** The inputs the form renders: title, description and due date take any
    text, priority is a select, and the status select exists only when
    editing. *)
Definition offered (isEditing : bool) (e : formEvent) : bool :=
  match e with
  | Submitted => true
  | Typed name value =>
      (name =? "title")%string || (name =? "description")%string
      || (name =? "dueDate")%string
      || ((name =? "priority")%string
          && existsb (String.eqb value) priorityOptions)
      || (isEditing && (name =? "status")%string
          && existsb (String.eqb value) statusOptions)
  end.

Definition formStep (e : formEvent) (st : Form.State) : Form.State :=
  match e with
  | Typed name value => Form.handleChange name value st
  | Submitted => fst (handleSubmit st)
  end.

(** The form state after a sequence of events on a freshly mounted form. *)
Definition formRun (events : list formEvent) (initialValues : Obj)
  : Form.State :=
  fold_left (fun st e => formStep e st) events (Form.init initialValues).

(** ** Status and priority styling (App.jsx) *)

Definition getStatusClasses (status : option string) : string :=
  if bool_decide (status = Some "Completed")
  then "bg-green-100 text-green-800 border-green-300"
  else if bool_decide (status = Some "In Progress")
  then "bg-blue-100 text-blue-800 border-blue-300"
  else "bg-yellow-100 text-yellow-800 border-yellow-300".

Definition getPriorityClasses (priority : option string) : string :=
  if bool_decide (priority = Some "High") then "text-red-600 font-bold"
  else if bool_decide (priority = Some "Medium")
  then "text-orange-500 font-medium"
  else "text-gray-500".

(** ** Saving (App.jsx, useTasks, the effect on [tasks]) *)

Section Save.
(** [JSON.stringify] on the task array and [localStorage.setItem], which
    returns the store it leaves or throws (no access, no room). *)
Variable JSON_stringify : list Task -> string.
Variable setItem : Storage -> string -> string -> outcome Storage.

(** The store after the effect ran; the [catch] logs and leaves the store
    as it was. *)
Definition saveTasks (st : Storage) (tasks : list Task) : outcome Storage :=
  try_catch (setItem st localStorageKey (JSON_stringify tasks))
    (fun error => Ret st).
End Save.

(** ** Pagination bar (App.jsx, TaskList) *)

(** [Array.from({ length: totalPages }, (_, i) => i + 1)] *)
Definition pageButtons (totalPages : Z) : list Z :=
  map (fun i => Z.of_nat i + 1) (seq 0 (Z.to_nat totalPages)).

(** The two numbers of "Showing .. to .. of .. results". *)
Definition showingFrom (filteredTasks : list Task) (currentPage : Z) : Z :=
  Z.min (Z.of_nat (length filteredTasks)) ((currentPage - 1) * tasksPerPage + 1).

Definition showingTo (filteredTasks : list Task) (currentPage : Z) : Z :=
  Z.min (Z.of_nat (length filteredTasks)) (currentPage * tasksPerPage).

Inductive icon : Type := ArrowUpIcon | ArrowDownIcon.

Definition getSortIcon (sortConfig : SortConfig) (k : string) : option icon :=
  if negb (key sortConfig =? k)%string then None
  else if (direction sortConfig =? "asc")%string then Some ArrowUpIcon
  else Some ArrowDownIcon.

(** ** View router (App.jsx, App) *)

Module Router.

Inductive View : Type := LIST | CREATE | EDIT | DELETE.

(** [selectedTaskId]: [null], or the [id] of a task, which is a string or
    [undefined]. *)
Inductive Selected : Type :=
| Null
| Id (v : option string).

Record State : Type := {
  tasks : list Task;
  currentView : View;
  selectedTaskId : Selected;
  showDeleteModal : bool
}.

Definition initial (loaded : list Task) : State :=
  {| tasks := loaded; currentView := LIST;
     selectedTaskId := Null; showDeleteModal := false |}.

Definition truthy (s : Selected) : bool :=
  match s with
  | Null => false
  | Id v => JS.truthy v
  end.

(** [tasks.find(t => t.id === selectedTaskId)]: no [id] is [null]. *)
Definition findSelected (s : Selected) (tasks : list Task) : option Task :=
  match s with
  | Null => None
  | Id v => findTask v tasks
  end.

Definition taskToEdit (st : State) : option Task :=
  if truthy (selectedTaskId st)
  then findSelected (selectedTaskId st) (tasks st)
  else None.

Definition navigateToList (st : State) : State :=
  {| tasks := tasks st; currentView := LIST;
     selectedTaskId := Null; showDeleteModal := showDeleteModal st |}.

Definition navigateToCreate (st : State) : State :=
  {| tasks := tasks st; currentView := CREATE;
     selectedTaskId := Null; showDeleteModal := showDeleteModal st |}.

Definition navigateToEdit (id : option string) (st : State) : State :=
  {| tasks := tasks st; currentView := EDIT;
     selectedTaskId := Id id; showDeleteModal := showDeleteModal st |}.

(** [freshId] stands for the id [addTask] generates. *)
Definition handleCreateTask (freshId : string) (newTaskData : Obj) (st : State)
  : State :=
  navigateToList
    {| tasks := addTask freshId newTaskData (tasks st);
       currentView := currentView st;
       selectedTaskId := selectedTaskId st;
       showDeleteModal := showDeleteModal st |}.

Definition handleUpdateTask (updatedTask : Task) (st : State) : State :=
  navigateToList
    {| tasks := updateTask updatedTask (tasks st);
       currentView := currentView st;
       selectedTaskId := selectedTaskId st;
       showDeleteModal := showDeleteModal st |}.

Definition handleDeleteInitiate (id : option string) (st : State) : State :=
  {| tasks := tasks st; currentView := currentView st;
     selectedTaskId := Id id; showDeleteModal := true |}.

Definition handleDeleteConfirm (st : State) : State :=
  match selectedTaskId st with
  | Id (Some taskId) =>
      if negb (taskId =? "")%string then
        {| tasks := deleteTask taskId (tasks st);
           currentView := currentView st;
           selectedTaskId := Null; showDeleteModal := false |}
      else st
  | _ => st
  end.

Definition handleDeleteCancel (st : State) : State :=
  {| tasks := tasks st; currentView := currentView st;
     selectedTaskId := Null; showDeleteModal := false |}.

(** [DeleteModal] renders something: the task the dialog names. *)
Definition modalTask (st : State) : option Task :=
  if showDeleteModal st
  then findSelected (selectedTaskId st) (tasks st)
  else None.

Inductive Screen : Type :=
| ListScreen                 (* [<TaskList>] *)
| CreateForm                 (* [<TaskForm taskToEdit={null}>] *)
| EditForm (taskToEdit : Task)
| Nothing.                   (* [null] *)

(** [renderView]: what it returns and the state it leaves (it calls
    [navigateToList] when the task to edit is not there). *)
Definition renderView (st : State) : Screen * State :=
  match currentView st with
  | CREATE => (CreateForm, st)
  | EDIT =>
      match taskToEdit st with
      | None => (Nothing, navigateToList st)
      | Some t => (EditForm t, st)
      end
  | _ => (ListScreen, st)
  end.

End Router.

(** ** The app as a whole: forms wired to the router *)

Definition isEditing (taskToEdit : option Task) : bool :=
  match taskToEdit with
  | Some _ => true
  | None => false
  end.

(** A form mounted on [taskToEdit] can hand [saved] to [onSave]: some
    sequence of events on its inputs ends in a submit that passes. *)
Definition formSaves (taskToEdit : option Task) (saved : Obj) : Prop :=
  exists today events,
    Forall (fun e => offered (isEditing taskToEdit) e = true) events /\
    snd (handleSubmit (formRun events (initialValues taskToEdit today)))
    = Some saved.

(** One step of the app: a button of the screen that is shown (the rows of
    the list carry the ids of tasks of the collection), a button of the
    delete dialog while it is shown, a save or a cancel of a form, or the
    render itself. *)
Inductive appStep : Router.State -> Router.State -> Prop :=
| step_create st :
    Router.currentView st = Router.LIST ->
    appStep st (Router.navigateToCreate st)
| step_edit st t :
    Router.currentView st = Router.LIST -> In t (Router.tasks st) ->
    appStep st (Router.navigateToEdit (t !! "id") st)
| step_delete_initiate st t :
    Router.currentView st = Router.LIST -> In t (Router.tasks st) ->
    appStep st (Router.handleDeleteInitiate (t !! "id") st)
| step_save_new st freshId saved :
    fst (Router.renderView st) = Router.CreateForm ->
    formSaves None saved ->
    appStep st (Router.handleCreateTask freshId saved st)
| step_save_edit st t saved :
    fst (Router.renderView st) = Router.EditForm t ->
    formSaves (Some t) saved ->
    appStep st (Router.handleUpdateTask saved st)
| step_cancel st :
    (fst (Router.renderView st) = Router.CreateForm \/
     exists t, fst (Router.renderView st) = Router.EditForm t) ->
    appStep st (Router.navigateToList st)
| step_delete_confirm st t :
    Router.modalTask st = Some t ->
    appStep st (Router.handleDeleteConfirm st)
| step_delete_cancel st t :
    Router.modalTask st = Some t ->
    appStep st (Router.handleDeleteCancel st)
| step_render st :
    appStep st (snd (Router.renderView st)).

(** The states the app can be in after it started with [loaded]. *)
Definition appReachable (loaded : list Task) (st : Router.State) : Prop :=
  rtc appStep (Router.initial loaded) st.

(** [a] may come before [b] on the screen: the value of [a] on the sort
    key is not above that of [b] when ascending, not below it otherwise. *)
Definition inOrder (sortConfig : SortConfig) (a b : Task) : Prop :=
  if (direction sortConfig =? "asc")%string
  then String.le (sortValue sortConfig a) (sortValue sortConfig b)
  else String.le (sortValue sortConfig b) (sortValue sortConfig a).

(** * Properties *)

(** ** Strings *)

Lemma trimStart_length s : (String.length (JS.trimStart s) <= String.length s)%nat.
Proof.
  induction s as [|c s IH]; simpl; [lia|].
  destruct (JS.isWhiteSpace c); simpl; lia.
Qed.

Lemma trimEnd_length s : (String.length (JS.trimEnd s) <= String.length s)%nat.
Proof.
  induction s as [|c s IH]; simpl; [lia|].
  destruct (JS.trimEnd s) as [|d r]; [destruct (JS.isWhiteSpace c)|]; simpl in *; lia.
Qed.

Lemma trim_length s : (String.length (JS.trim s) <= String.length s)%nat.
Proof.
  unfold JS.trim. etrans; [apply trimEnd_length | apply trimStart_length].
Qed.

Lemma trimStart_empty s : JS.trimStart s = "" <-> whitespace_only s.
Proof.
  unfold whitespace_only. induction s as [|c s IH]; simpl.
  - split; [constructor | reflexivity].
  - destruct (JS.isWhiteSpace c) eqn:Hc.
    + rewrite IH. split; [by constructor | by inversion 1].
    + split; [discriminate | inversion 1; congruence].
Qed.

Lemma trimStart_head c s :
  JS.trimStart s = String c "" \/ (exists r, JS.trimStart s = String c r) ->
  JS.isWhiteSpace c = false.
Proof.
  induction s as [|d s IH]; simpl.
  - intros [?|[? ?]]; discriminate.
  - destruct (JS.isWhiteSpace d) eqn:Hd; [exact IH|].
    intros [?|[? ?]]; congruence.
Qed.

Lemma trim_empty s : JS.trim s = "" <-> whitespace_only s.
Proof.
  rewrite <- trimStart_empty. unfold JS.trim.
  destruct (JS.trimStart s) as [|c r] eqn:Hs; [done|].
  assert (JS.isWhiteSpace c = false) as Hc
    by (apply (trimStart_head c s); right; eauto).
  simpl. rewrite Hc. split; [|discriminate].
  by destruct (JS.trimEnd r).
Qed.

(** ** Validation rule *)

Lemma blank_missing v : blank v = true <-> missing v.
Proof.
  unfold blank, missing. destruct v as [s|]; simpl; [|done].
  rewrite <- trim_empty. destruct (String.eqb_spec s "") as [->|Hs]; simpl.
  - done.
  - apply String.eqb_eq.
Qed.

Lemma validateTaskForm_title_lookup values :
  validateTaskForm values !! "title" =
    if blank (values !! "title") then Some title_required
    else if (String.length (JS.or_empty (values !! "title")) <? 3)%nat
         then Some title_too_short
         else None.
Proof.
  unfold validateTaskForm.
  repeat match goal with
         | |- context [if ?b then _ else _] => destruct b
         end; by simplify_map_eq.
Qed.

(** The form is accepted exactly when no field has an error. *)
Lemma validate_true (values : Obj) :
  validate values = true <-> validateTaskForm values = ∅.
Proof.
  unfold validate. rewrite Nat.eqb_eq. apply map_size_empty_iff.
Qed.

Example validate_sample : validate task1 = true.
Proof. vm_compute. reflexivity. Qed.

(** C1 (as amended).  For every form-values object, the title error is
    "Title is required." exactly when the title is absent, empty or white
    space only, and "Title must be at least 3 characters." exactly when the
    title is none of these and its length as typed (not trimmed) is below 3.
    A title whose trimmed length is 1 or 2 never gets the "required" error:
    it gets the "at least 3 characters" error when its untrimmed length is
    below 3 and no title error otherwise. *)
Theorem validateTaskForm_title (values : Obj) :
  let v := values !! "title" in
  let e := validateTaskForm values !! "title" in
  (e = Some title_required <-> missing v) /\
  (e = Some title_too_short <->
     ~ missing v /\ (String.length (JS.or_empty v) < 3)%nat) /\
  (forall s, v = Some s -> (1 <= String.length (JS.trim s) <= 2)%nat ->
     e <> Some title_required /\
     if (String.length s <? 3)%nat then e = Some title_too_short else e = None).
Proof.
  cbv zeta. rewrite validateTaskForm_title_lookup.
  pose proof (blank_missing (values !! "title")) as Hb.
  destruct (blank (values !! "title")) eqn:Hblank.
  - assert (missing (values !! "title")) as Hm by by apply Hb.
    split; [done|]. split.
    + split; [discriminate | by intros [? _]].
    + intros s Hs Hlen. exfalso. rewrite Hs in Hm. simpl in Hm.
      apply trim_empty in Hm. rewrite Hm in Hlen. simpl in Hlen. lia.
  - assert (~ missing (values !! "title")) as Hm
      by (intros Hm; apply Hb in Hm; discriminate).
    destruct (Nat.ltb_spec (String.length (JS.or_empty (values !! "title"))) 3)
      as [Hlt|Hge].
    + split; [split; [discriminate | done]|]. split; [done|].
      intros s Hs _. rewrite Hs in Hlt. simpl in Hlt.
      split; [discriminate|]. by apply Nat.ltb_lt in Hlt as ->.
    + split; [split; [discriminate | done]|].
      split; [split; [discriminate | lia]|].
      intros s Hs _. rewrite Hs in Hge. simpl in Hge.
      split; [discriminate|]. by apply Nat.ltb_ge in Hge as ->.
Qed.

Lemma validateTaskForm_title_witness :
  validateTaskForm (<["title" := "ab"]> ∅) !! "title" = Some title_too_short.
Proof.
  destruct (validateTaskForm_title (<["title" := "ab"]> ∅)) as (_ & _ & H).
  destruct (H "ab") as [_ H']; [reflexivity | vm_compute; lia | exact H'].
Defined.

(** C1 as stated fails: the title "ab " (a trailing space) has trimmed
    length 2 and is not missing, yet it gets no title error, because the
    code measures the untrimmed length, which is 3. *)
Lemma validateTaskForm_title_counterexample :
  ~ title_rule_as_specified (<["title" := "ab "]> ∅).
Proof.
  intros [_ [_ H]].
  assert (validateTaskForm (<["title" := "ab "]> ∅) !! "title" = Some title_too_short)
    as He.
  { apply H. split.
    - intros Hm. apply (blank_missing (Some "ab ")) in Hm. vm_compute in Hm.
      discriminate.
    - vm_compute. lia. }
  vm_compute in He. discriminate.
Qed.

(** ** Task repository: the initial load *)

Section LoadProperties.
Context {V : Type}.
Variable emptyArray : V.
Variable JSON_parse : string -> outcome V.


(** C3.  Whatever the store holds, the initial load returns a value and
    never throws; it returns the empty collection when the key is
    missing, when the stored text is empty, when the text is malformed
    ([JSON.parse] throws), and when the store itself cannot be read. *)
Theorem loadTasks_never_throws (st : Storage) :
  (exists loaded, loadTasks emptyArray JSON_parse st = Ret loaded) /\
  (items st !! localStorageKey = None ->
     loadTasks emptyArray JSON_parse st = Ret emptyArray) /\
  (items st !! localStorageKey = Some "" ->
     loadTasks emptyArray JSON_parse st = Ret emptyArray) /\
  (forall text e, items st !! localStorageKey = Some text ->
                  JSON_parse text = Throw e ->
                  loadTasks emptyArray JSON_parse st = Ret emptyArray) /\
  (accessible st = false ->
     loadTasks emptyArray JSON_parse st = Ret emptyArray).
Proof.
  unfold loadTasks, readStored, getItem.
  destruct (accessible st); simpl.
  - destruct (items st !! localStorageKey) as [text|] eqn:Hk; simpl.
    + destruct (String.eqb_spec text "") as [->|Hne]; simpl.
      * repeat split; eauto.
      * destruct (JSON_parse text) as [parsed|e] eqn:Hp; simpl.
        -- repeat split; eauto; try discriminate.
           ++ intros [= ->]. done.
           ++ intros text' e' [= <-]. rewrite Hp. discriminate.
        -- repeat split; eauto.
    + repeat split; eauto.
  - repeat split; eauto.
Qed.
End LoadProperties.

Lemma loadTasks_never_throws_witness :
  loadTasks ([] : list Task) (fun _ => Throw SyntaxError)
    {| accessible := true; items := {[ localStorageKey := "[{" ]} |} = Ret [].
Proof.
  destruct (loadTasks_never_throws ([] : list Task) (fun _ => Throw SyntaxError)
              {| accessible := true; items := {[ localStorageKey := "[{" ]} |})
    as (_ & _ & _ & H & _).
  apply (H "[{" SyntaxError); reflexivity.
Defined.

(** The three cases on a concrete store, with a parser that accepts
    nothing. *)
Example load_missing_key :
  loadTasks ([] : list Task) (fun _ => Throw SyntaxError)
    {| accessible := true; items := ∅ |} = Ret [].
Proof. reflexivity. Qed.

Example load_empty_text :
  loadTasks ([] : list Task) (fun _ => Throw SyntaxError)
    {| accessible := true; items := {[ localStorageKey := "" ]} |} = Ret [].
Proof. reflexivity. Qed.

(** ** Task repository: update and delete *)

Lemma findTask_updateTask (t : Task) (prev : list Task) :
  (exists old, In old prev /\ old !! "id" = t !! "id") ->
  findTask (t !! "id") (updateTask t prev) = Some t.
Proof.
  unfold findTask, updateTask.
  induction prev as [|x prev IH]; intros (old & Hin & Hid).
  - destruct Hin.
  - simpl. destruct (bool_decide (x !! "id" = t !! "id")) eqn:Hx.
    + by rewrite bool_decide_eq_true_2.
    + rewrite Hx. apply IH. destruct Hin as [->|Hin]; [|eauto].
      apply bool_decide_eq_false in Hx. contradiction.
Qed.

Lemma updateTask_absent (t : Task) (prev : list Task) :
  (forall old, In old prev -> old !! "id" <> t !! "id") ->
  updateTask t prev = prev.
Proof.
  unfold updateTask. induction prev as [|x prev IH]; intros H; simpl; [done|].
  rewrite bool_decide_eq_false_2 by (apply H; by left).
  f_equal. apply IH. intros old Hin. apply H. by right.
Qed.

(** C9.  [updateTask t] keeps the length and the positions of the
    collection; the record at a position is afterwards [t] when its id was
    that of [t] and is the same record as before otherwise; when some
    record had the id of [t], looking that id up afterwards finds exactly
    [t]; and when none had it, the collection is unchanged. *)
Theorem updateTask_frame (t : Task) (prev : list Task) :
  length (updateTask t prev) = length prev /\
  (forall i old, nth_error prev i = Some old ->
     nth_error (updateTask t prev) i =
       Some (if bool_decide (old !! "id" = t !! "id") then t else old)) /\
  ((exists old, In old prev /\ old !! "id" = t !! "id") ->
     findTask (t !! "id") (updateTask t prev) = Some t) /\
  ((forall old, In old prev -> old !! "id" <> t !! "id") ->
     updateTask t prev = prev).
Proof.
  split; [apply length_map|]. split.
  - intros i old Hi. unfold updateTask.
    by rewrite nth_error_map, Hi.
  - split; [apply findTask_updateTask | apply updateTask_absent].
Qed.

Lemma updateTask_frame_witness :
  findTask (<["title" := "Buy oat milk"]> task2 !! "id")
    (updateTask (<["title" := "Buy oat milk"]> task2) [task1; task2; task3])
  = Some (<["title" := "Buy oat milk"]> task2).
Proof.
  apply (updateTask_frame (<["title" := "Buy oat milk"]> task2)
           [task1; task2; task3]).
  exists task2. split; [right; by left | reflexivity].
Defined.

Example updateTask_sample :
  updateTask (<["title" := "Buy oat milk"]> task2) [task1; task2; task3]
  = [task1; <["title" := "Buy oat milk"]> task2; task3].
Proof. vm_compute. reflexivity. Qed.

Lemma deleteTask_In (taskId : string) (prev : list Task) (t : Task) :
  In t (deleteTask taskId prev) <-> In t prev /\ t !! "id" <> Some taskId.
Proof.
  unfold deleteTask. rewrite filter_In, negb_true_iff, bool_decide_eq_false.
  done.
Qed.

Lemma deleteTask_absent (taskId : string) (prev : list Task) :
  (forall t, In t prev -> t !! "id" <> Some taskId) ->
  deleteTask taskId prev = prev.
Proof.
  unfold deleteTask. induction prev as [|x prev IH]; intros H; simpl; [done|].
  rewrite bool_decide_eq_false_2 by (apply H; by left). simpl.
  f_equal. apply IH. intros t Hin. apply H. by right.
Qed.

Lemma deleteTask_app (taskId : string) (l1 l2 : list Task) :
  deleteTask taskId (l1 ++ l2) = deleteTask taskId l1 ++ deleteTask taskId l2.
Proof. apply List.filter_app. Qed.

Lemma deleteTask_idempotent (taskId : string) (prev : list Task) :
  deleteTask taskId (deleteTask taskId prev) = deleteTask taskId prev.
Proof.
  apply deleteTask_absent. intros t Hin. by apply deleteTask_In in Hin as [_ ?].
Qed.

(** Without any assumption on the ids: the number of records removed is the
    number of records that carry the id. *)
Lemma deleteTask_length (taskId : string) (prev : list Task) :
  (length (deleteTask taskId prev) +
   length (List.filter (fun t => bool_decide (t !! "id" = Some taskId)) prev)
   = length prev)%nat.
Proof.
  unfold deleteTask. induction prev as [|x prev IH]; simpl; [done|].
  destruct (bool_decide (x !! "id" = Some taskId)); simpl; lia.
Qed.

(** The repository keeps the ids unique: an update does not touch the ids,
    a delete only drops records, and an add with a fresh id keeps them
    apart. *)
Lemma updateTask_ids (t : Task) (prev : list Task) :
  map (fun x : Task => x !! "id") (updateTask t prev)
  = map (fun x : Task => x !! "id") prev.
Proof.
  unfold updateTask. rewrite map_map. apply map_ext. intros x.
  destruct (bool_decide (x !! "id" = t !! "id")) eqn:Hx; [|done].
  by apply bool_decide_eq_true in Hx.
Qed.

Lemma updateTask_unique_ids (t : Task) (prev : list Task) :
  unique_ids prev -> unique_ids (updateTask t prev).
Proof. unfold unique_ids. by rewrite updateTask_ids. Qed.

Lemma deleteTask_unique_ids (taskId : string) (prev : list Task) :
  unique_ids prev -> unique_ids (deleteTask taskId prev).
Proof.
  unfold unique_ids, deleteTask.
  induction prev as [|x prev IH]; simpl; [done|].
  intros Hnd. apply List.NoDup_cons_iff in Hnd as [Hx Hnd].
  destruct (negb _); simpl; [|by apply IH].
  constructor; [|by apply IH].
  intros Hin. apply Hx. apply in_map_iff in Hin as (y & Hy & Hin).
  apply in_map_iff. exists y. split; [done|].
  by apply filter_In in Hin as [? _].
Qed.

Lemma addTask_unique_ids (id : string) (newTaskData : Obj) (prev : list Task) :
  unique_ids prev ->
  (forall t, In t prev -> t !! "id" <> Some id) ->
  unique_ids (addTask id newTaskData prev).
Proof.
  unfold unique_ids, addTask. intros Hnd Hfresh.
  rewrite map_app. simpl. rewrite lookup_insert_eq.
  apply (proj1 (Permutation_NoDup' (Permutation_cons_append _ (Some id)))).
  constructor; [|done].
  intros Hin. apply in_map_iff in Hin as (t & Ht & Hin). by apply (Hfresh t).
Qed.

(** C8.  [deleteTask id] keeps exactly the records whose id is not [id],
    so the records it removes are those that carry the id; it is a no-op
    when no record has that id; it is idempotent; and in a collection whose
    ids are unique (the invariant of the data model) that holds a record
    with that id, it removes that one record and keeps all the others in
    their order. *)
Theorem deleteTask_removes_one (taskId : string) (prev : list Task) :
  (forall t, In t (deleteTask taskId prev) <->
             In t prev /\ t !! "id" <> Some taskId) /\
  (length (deleteTask taskId prev) +
   length (List.filter (fun t => bool_decide (t !! "id" = Some taskId)) prev)
   = length prev)%nat /\
  ((forall t, In t prev -> t !! "id" <> Some taskId) ->
     deleteTask taskId prev = prev) /\
  deleteTask taskId (deleteTask taskId prev) = deleteTask taskId prev /\
  (unique_ids prev ->
   (exists t, In t prev /\ t !! "id" = Some taskId) ->
   exists l1 t l2,
     prev = l1 ++ t :: l2 /\ t !! "id" = Some taskId /\
     deleteTask taskId prev = l1 ++ l2 /\
     S (length (deleteTask taskId prev)) = length prev).
Proof.
  split; [apply deleteTask_In|].
  split; [apply deleteTask_length|].
  split; [apply deleteTask_absent|].
  split; [apply deleteTask_idempotent|].
  unfold unique_ids. intros Hnd (t & Hin & Hid).
  apply in_split in Hin as (l1 & l2 & ->).
  exists l1, t, l2. split; [done|]. split; [done|].
  rewrite map_app in Hnd. simpl in Hnd. rewrite Hid in Hnd.
  pose proof (NoDup_remove_2 _ _ _ Hnd) as Hnot.
  assert (deleteTask taskId (l1 ++ t :: l2) = l1 ++ l2) as ->.
  { rewrite deleteTask_app. simpl. rewrite bool_decide_eq_true_2 by done. simpl.
    rewrite !deleteTask_absent; [done|..].
    - intros x Hx Hxid. apply Hnot. apply in_or_app. right.
      rewrite <- Hxid. by apply (in_map (fun t : Task => t !! "id")).
    - intros x Hx Hxid. apply Hnot. apply in_or_app. left.
      rewrite <- Hxid. by apply (in_map (fun t : Task => t !! "id")). }
  split; [done|]. rewrite !length_app. simpl. lia.
Qed.

Lemma deleteTask_removes_one_witness :
  exists l1 t l2,
    [task1; task2; task3] = l1 ++ t :: l2 /\ t !! "id" = Some "t2" /\
    deleteTask "t2" [task1; task2; task3] = l1 ++ l2 /\
    S (length (deleteTask "t2" [task1; task2; task3]))
    = length [task1; task2; task3].
Proof.
  apply (deleteTask_removes_one "t2" [task1; task2; task3]).
  - unfold unique_ids. repeat constructor; simpl; intuition discriminate.
  - exists task2. split; [right; by left | reflexivity].
Defined.

Example deleteTask_sample :
  deleteTask "t2" [task1; task2; task3] = [task1; task3].
Proof. vm_compute. reflexivity. Qed.

(** Where two records carry the same id (a stored collection that was
    tampered with), both go. *)
Example deleteTask_duplicate_ids :
  deleteTask "t1" [task1; task2; <["id" := "t1"]> task3] = [task2].
Proof. vm_compute. reflexivity. Qed.

(** ** The sort: permutation, order, stability *)

Section SortFacts.
Context {A : Type} (cmp : A -> A -> Z).

Lemma insert_Permutation x l : Permutation (JS.insert cmp x l) (x :: l).
Proof.
  induction l as [|y l IH]; simpl; [done|].
  destruct (0 <? cmp x y); [|done].
  rewrite IH. apply perm_swap.
Qed.

Lemma sort_Permutation l : Permutation (JS.sort cmp l) l.
Proof.
  induction l as [|x l IH]; simpl; [done|].
  rewrite insert_Permutation. by constructor.
Qed.

(** Elements that compare as equal keep their order: [q] selects a class
    of such elements. *)
Lemma filter_insert_class (q : A -> bool) x l :
  (forall y, q x = true -> q y = true -> cmp x y <= 0) ->
  List.filter q (JS.insert cmp x l) =
    if q x then x :: List.filter q l else List.filter q l.
Proof.
  intros Hq. induction l as [|y l IH]; simpl; [done|].
  destruct (Z.ltb_spec 0 (cmp x y)) as [Hgt|Hle]; simpl.
  - rewrite IH. destruct (q y) eqn:Hy; [|done].
    destruct (q x) eqn:Hx; [|done].
    specialize (Hq y eq_refl Hy). lia.
  - done.
Qed.

Lemma sort_stable_class (q : A -> bool) l :
  (forall x y, q x = true -> q y = true -> cmp x y <= 0) ->
  List.filter q (JS.sort cmp l) = List.filter q l.
Proof.
  intros Hq. induction l as [|x l IH]; simpl; [done|].
  rewrite filter_insert_class by (intros y; apply Hq).
  by rewrite IH.
Qed.

(** For a comparator that orders the elements consistently. *)
Hypothesis cmp_trans : forall x y z, cmp x y <= 0 -> cmp y z <= 0 -> cmp x z <= 0.
Hypothesis cmp_total : forall x y, 0 < cmp x y -> cmp y x <= 0.

Lemma insert_least x l : Forall (cmp_le cmp x) l -> JS.insert cmp x l = x :: l.
Proof.
  unfold cmp_le. destruct 1 as [|y l Hy _]; simpl; [done|].
  destruct (Z.ltb_spec 0 (cmp x y)); [lia | done].
Qed.

Lemma insert_StronglySorted x l :
  StronglySorted (cmp_le cmp) l -> StronglySorted (cmp_le cmp) (JS.insert cmp x l).
Proof.
  induction 1 as [|y l Hs IH Hy]; simpl.
  - repeat constructor.
  - destruct (Z.ltb_spec 0 (cmp x y)) as [Hgt|Hle].
    + constructor; [done|].
      eapply Permutation_Forall; [symmetry; apply insert_Permutation|].
      constructor; [by apply cmp_total | done].
    + constructor; [by constructor|].
      constructor; [done|].
      eapply List.Forall_impl; [|exact Hy]. intros z Hz. by eapply cmp_trans.
Qed.

Lemma sort_StronglySorted l : StronglySorted (cmp_le cmp) (JS.sort cmp l).
Proof.
  induction l; simpl; [constructor | by apply insert_StronglySorted].
Qed.

Lemma Forall_filter_keep (P : A -> Prop) (p : A -> bool) l :
  Forall P l -> Forall P (List.filter p l).
Proof.
  induction 1 as [|y l Hy _ IH]; simpl; [constructor|].
  destruct (p y); [by constructor | done].
Qed.

Lemma filter_insert_sorted (p : A -> bool) x l :
  StronglySorted (cmp_le cmp) l ->
  List.filter p (JS.insert cmp x l) =
    if p x then JS.insert cmp x (List.filter p l) else List.filter p l.
Proof.
  induction 1 as [|y l Hs IH Hy]; simpl; [done|].
  destruct (Z.ltb_spec 0 (cmp x y)) as [Hgt|Hle]; simpl.
  - rewrite IH. destruct (p y), (p x); simpl; try done.
    by rewrite (proj2 (Z.ltb_lt 0 (cmp x y)) Hgt).
  - destruct (p x); [|done].
    symmetry. apply (insert_least x (List.filter p (y :: l))).
    apply Forall_filter_keep. constructor; [done|].
    eapply List.Forall_impl; [|exact Hy]. intros z Hz. by eapply cmp_trans.
Qed.

(** Filtering commutes with the stable sort. *)
Lemma filter_sort_comm (p : A -> bool) l :
  List.filter p (JS.sort cmp l) = JS.sort cmp (List.filter p l).
Proof.
  induction l as [|x l IH]; simpl; [done|].
  rewrite filter_insert_sorted by apply sort_StronglySorted.
  rewrite IH. by destruct (p x).
Qed.

Lemma cmp_le_refl x : cmp_le cmp x x.
Proof.
  unfold cmp_le. destruct (Z.le_gt_cases (cmp x x) 0) as [|Hgt]; [done|].
  by apply cmp_total.
Qed.

Lemma stable_sorted_unique l1 l2 :
  StronglySorted (cmp_le cmp) l1 -> StronglySorted (cmp_le cmp) l2 ->
  Permutation l1 l2 ->
  (forall x, List.filter (cmp_eqvb cmp x) l1 = List.filter (cmp_eqvb cmp x) l2) ->
  l1 = l2.
Proof.
  intros H1. revert l2.
  induction H1 as [|a l1 Hs1 IH Ha]; intros l2 H2 Hp Hf.
  - by apply Permutation_nil in Hp.
  - destruct H2 as [|b l2 Hs2 Hb].
    { symmetry in Hp. by apply Permutation_nil in Hp. }
    assert (cmp_le cmp a b) as Hab.
    { assert (In b (a :: l1)) as [->|Hin]
        by (eapply Permutation_in; [symmetry; exact Hp | by left]).
      - apply cmp_le_refl.
      - by apply (proj1 (List.Forall_forall _ _) Ha). }
    assert (cmp_le cmp b a) as Hba.
    { assert (In a (b :: l2)) as [->|Hin]
        by (eapply Permutation_in; [exact Hp | by left]).
      - apply cmp_le_refl.
      - by apply (proj1 (List.Forall_forall _ _) Hb). }
    assert (a = b) as <-.
    { specialize (Hf a). simpl in Hf. unfold cmp_eqvb in Hf.
      rewrite (proj2 (Z.leb_le _ _) (cmp_le_refl a)) in Hf.
      rewrite (proj2 (Z.leb_le _ _) Hab), (proj2 (Z.leb_le _ _) Hba) in Hf.
      simpl in Hf. congruence. }
    f_equal. apply IH; [done | by eapply Permutation_cons_inv |].
    intros x. specialize (Hf x). simpl in Hf.
    destruct (cmp_eqvb cmp x a); congruence.
Qed.

(** The stable sort is determined by its specification: a list that is a
    permutation of the input, is in order, and keeps the order of the
    elements that compare as equal, is the list [JS.sort] returns. *)
Lemma sort_unique l l' :
  Permutation l' l -> StronglySorted (cmp_le cmp) l' ->
  (forall x, List.filter (cmp_eqvb cmp x) l' = List.filter (cmp_eqvb cmp x) l) ->
  l' = JS.sort cmp l.
Proof.
  intros Hp Hs Hf. apply stable_sorted_unique.
  - done.
  - apply sort_StronglySorted.
  - by rewrite sort_Permutation.
  - intros x. rewrite Hf. symmetry. apply sort_stable_class.
    intros y z Hy Hz. unfold cmp_eqvb in *.
    apply andb_prop in Hy as [Hxy Hyx]. apply andb_prop in Hz as [Hxz Hzx].
    apply Z.leb_le in Hxy, Hyx, Hxz, Hzx. by eapply cmp_trans.
Qed.
End SortFacts.

(** ** The comparator of the list screen *)

Lemma compareTasks_compare (sortConfig : SortConfig) (a b : Task) :
  compareTasks sortConfig a b =
    match String.compare (sortValue sortConfig a) (sortValue sortConfig b) with
    | Lt => if (direction sortConfig =? "asc")%string then -1 else 1
    | Eq => 0
    | Gt => if (direction sortConfig =? "asc")%string then 1 else -1
    end.
Proof.
  unfold compareTasks, sortValue, JS.lt, String.ltb.
  rewrite (String.compare_antisym (JS.or_empty (b !! key sortConfig))).
  by destruct (String.compare _ _).
Qed.

Lemma compareTasks_le (sortConfig : SortConfig) (a b : Task) :
  compareTasks sortConfig a b <= 0 <->
  if (direction sortConfig =? "asc")%string
  then String.le (sortValue sortConfig a) (sortValue sortConfig b)
  else String.le (sortValue sortConfig b) (sortValue sortConfig a).
Proof.
  rewrite compareTasks_compare. unfold String.le, String.leb.
  rewrite (String.compare_antisym (sortValue sortConfig a) (sortValue sortConfig b)).
  destruct (direction sortConfig =? "asc")%string,
    (String.compare (sortValue sortConfig b) (sortValue sortConfig a));
    simpl; split; intros H; try done; try lia.
Qed.

Lemma compareTasks_trans (sortConfig : SortConfig) (x y z : Task) :
  compareTasks sortConfig x y <= 0 -> compareTasks sortConfig y z <= 0 ->
  compareTasks sortConfig x z <= 0.
Proof.
  rewrite !compareTasks_le.
  destruct (direction sortConfig =? "asc")%string; intros H1 H2.
  - by etrans.
  - by etrans.
Qed.

Lemma compareTasks_total (sortConfig : SortConfig) (x y : Task) :
  0 < compareTasks sortConfig x y -> compareTasks sortConfig y x <= 0.
Proof.
  intros Hgt. apply compareTasks_le.
  assert (~ compareTasks sortConfig x y <= 0) as Hn by lia.
  rewrite compareTasks_le in Hn.
  destruct (direction sortConfig =? "asc")%string.
  - by destruct (total String.le (sortValue sortConfig x) (sortValue sortConfig y)).
  - by destruct (total String.le (sortValue sortConfig x) (sortValue sortConfig y)).
Qed.

Lemma compareTasks_same_value (sortConfig : SortConfig) (x y : Task) :
  sortValue sortConfig x = sortValue sortConfig y ->
  compareTasks sortConfig x y = 0.
Proof.
  intros Hv. rewrite compareTasks_compare, Hv.
  assert (String.compare (sortValue sortConfig y) (sortValue sortConfig y) = Eq)
    as ->; [|done].
  pose proof (String.compare_antisym (sortValue sortConfig y) (sortValue sortConfig y)).
  by destruct (String.compare _ _).
Qed.

Lemma sortedTasks_Permutation (tasks : list Task) (sortConfig : SortConfig) :
  Permutation (sortedTasks tasks sortConfig) tasks.
Proof.
  unfold sortedTasks. destruct (JS.truthy _); [apply sort_Permutation | done].
Qed.

Lemma sortedTasks_filter (p : Task -> bool) (tasks : list Task)
    (sortConfig : SortConfig) :
  List.filter p (sortedTasks tasks sortConfig) =
    sortedTasks (List.filter p tasks) sortConfig.
Proof.
  unfold sortedTasks. destruct (JS.truthy _); [|done].
  apply filter_sort_comm.
  - apply compareTasks_trans.
  - apply compareTasks_total.
Qed.

(** With a sort key, the sorted list is in the order of the comparator,
    and it is the only stable arrangement of the tasks in that order: the
    choice of the sorting algorithm does not show. *)
Lemma sortedTasks_StronglySorted (tasks : list Task) (sortConfig : SortConfig) :
  key sortConfig <> "" ->
  StronglySorted (cmp_le (compareTasks sortConfig)) (sortedTasks tasks sortConfig).
Proof.
  intros Hk. unfold sortedTasks. simpl.
  apply String.eqb_neq in Hk. rewrite Hk. simpl.
  apply sort_StronglySorted; [apply compareTasks_trans | apply compareTasks_total].
Qed.

Lemma sortedTasks_determined (tasks l' : list Task) (sortConfig : SortConfig) :
  key sortConfig <> "" ->
  Permutation l' tasks ->
  StronglySorted (cmp_le (compareTasks sortConfig)) l' ->
  (forall x, List.filter (cmp_eqvb (compareTasks sortConfig) x) l'
             = List.filter (cmp_eqvb (compareTasks sortConfig) x) tasks) ->
  l' = sortedTasks tasks sortConfig.
Proof.
  intros Hk Hp Hs Hf. unfold sortedTasks. simpl.
  apply String.eqb_neq in Hk. rewrite Hk. simpl.
  apply sort_unique; try done; [apply compareTasks_trans | apply compareTasks_total].
Qed.

Lemma filter_cons_split {A} (q : A -> bool) (m p : list A) (a : A) (r : list A) :
  List.filter q m = p ++ a :: r ->
  exists m1 m2, m = m1 ++ a :: m2 /\ List.filter q m1 = p /\ List.filter q m2 = r.
Proof.
  revert p. induction m as [|x m IH]; intros p Hf; simpl in Hf.
  - by destruct p.
  - destruct (q x) eqn:Hx.
    + destruct p as [|y p]; simpl in Hf.
      * injection Hf as Hxa Hr. subst x. by exists [], m.
      * injection Hf as Hxy Hf. subst y.
        apply IH in Hf as (m1 & m2 & Hm & Hp & Hr). subst m p.
        exists (x :: m1), m2. simpl. by rewrite Hx.
    + apply IH in Hf as (m1 & m2 & Hm & Hp & Hr). subst m p.
      exists (x :: m1), m2. simpl. by rewrite Hx.
Qed.

(** C4.  The sort step is stable, whatever the key and the direction: for
    every value [v], the tasks whose value on the sort key is [v] come in
    the sorted list in the order in which they come in the input; so when
    [a] occurs before [b] in the input and the two have the same value on
    the sort key, [a] occurs before [b] in the sorted list. *)
Theorem sortedTasks_stable (tasks : list Task) (sortConfig : SortConfig) :
  (forall v, List.filter (hasSortValue sortConfig v) (sortedTasks tasks sortConfig)
             = List.filter (hasSortValue sortConfig v) tasks) /\
  (forall a b, sortValue sortConfig a = sortValue sortConfig b ->
               occurs_before a b tasks ->
               occurs_before a b (sortedTasks tasks sortConfig)).
Proof.
  assert (forall v, List.filter (hasSortValue sortConfig v) (sortedTasks tasks sortConfig)
                    = List.filter (hasSortValue sortConfig v) tasks) as Hst.
  { intros v. unfold sortedTasks. destruct (JS.truthy _); [|done].
    apply sort_stable_class. intros x y Hx Hy.
    apply String.eqb_eq in Hx, Hy.
    rewrite compareTasks_same_value by congruence. lia. }
  split; [exact Hst|].
  intros a b Hab (l1 & l2 & l3 & Hl).
  specialize (Hst (sortValue sortConfig a)).
  set (q := hasSortValue sortConfig (sortValue sortConfig a)) in *.
  assert (q a = true) as Ha by apply String.eqb_refl.
  assert (q b = true) as Hb by (unfold q, hasSortValue; rewrite Hab; apply String.eqb_refl).
  rewrite Hl in Hst at 2.
  rewrite List.filter_app in Hst. simpl in Hst. rewrite Ha in Hst.
  rewrite List.filter_app in Hst. simpl in Hst. rewrite Hb in Hst.
  apply filter_cons_split in Hst as (m1 & m' & Hm & _ & Hm').
  apply filter_cons_split in Hm' as (m2 & m3 & -> & _ & _).
  by exists m1, m2, m3.
Qed.

Lemma sortedTasks_stable_witness :
  occurs_before task1 task3
    (sortedTasks [task1; task2; task3] {| key := "dueDate"; direction := "desc" |}).
Proof.
  apply (sortedTasks_stable [task1; task2; task3]
           {| key := "dueDate"; direction := "desc" |}).
  - reflexivity.
  - by exists [], [task2], [].
Defined.

(** ** Substrings *)

Lemma append_cons (c : ascii) (s t : string) :
  (String c s ++ t)%string = String c (s ++ t)%string.
Proof. reflexivity. Qed.

Lemma append_empty (t : string) : ("" ++ t)%string = t.
Proof. reflexivity. Qed.

Lemma prefix_app (sub s : string) :
  String.prefix sub s = true <-> exists post, s = (sub ++ post)%string.
Proof.
  revert s. induction sub as [|a sub IH]; intros s; simpl.
  - split; [eauto | by destruct s].
  - destruct s as [|b s]; simpl.
    + split; [discriminate | by intros [? ?]].
    + destruct (ascii_dec a b) as [->|Hne].
      * rewrite IH. split; intros [post Hp]; exists post;
          rewrite append_cons in *; congruence.
      * split; [discriminate|]. intros [post Hp].
        rewrite append_cons in Hp. congruence.
Qed.

Lemma includes_cons (c : ascii) (s sub : string) :
  JS.includes (String c s) sub =
    if String.prefix sub (String c s) then true else JS.includes s sub.
Proof. reflexivity. Qed.

Lemma includes_substring (s sub : string) :
  JS.includes s sub = true <-> is_substring sub s.
Proof.
  unfold is_substring. induction s as [|c s IH].
  - destruct sub as [|a sub]; simpl.
    + split; [|done]. intros _. by exists "", "".
    + split; [discriminate|]. intros (pre & post & H).
      destruct pre; [|discriminate]. rewrite append_empty, append_cons in H.
      discriminate.
  - rewrite includes_cons.
    destruct (String.prefix sub (String c s)) eqn:Hp.
    + split; [|done]. intros _. apply prefix_app in Hp as [post Hp].
      by exists "", post.
    + rewrite IH. split; intros (pre & post & H).
      * exists (String c pre), post. rewrite append_cons. by rewrite H.
      * destruct pre as [|d pre].
        -- rewrite append_empty in H.
           assert (String.prefix sub (String c s) = true) as Hp'
             by (apply prefix_app; eauto).
           congruence.
        -- rewrite append_cons in H. injection H as _ H. eauto.
Qed.

Lemma toLowerCase_nonempty (s : string) : s <> "" -> JS.toLowerCase s <> "".
Proof. by destruct s. Qed.

Lemma includes_empty_string (sub : string) :
  sub <> "" -> JS.includes "" sub = false.
Proof. by destruct sub. Qed.

(** ** The filter with a callback that can throw *)

Lemma JS_filter_spec {A} (callback : A -> outcome bool) (l : list A) :
  (forall x e, callback x = Throw e -> e = TypeError) ->
  JS.filter callback l =
    if existsb (throws callback) l then Throw TypeError
    else Ret (List.filter (accepts callback) l).
Proof.
  intros Herr. induction l as [|x l IH]; simpl; [done|].
  unfold throws at 1, accepts at 1.
  destruct (callback x) as [b|e] eqn:Hx; simpl.
  - rewrite IH. destruct (existsb _ l); simpl; [done|]. by destruct b.
  - by rewrite (Herr x e Hx).
Qed.

Lemma existsb_Permutation {A} (f : A -> bool) (l l' : list A) :
  Permutation l l' -> existsb f l = existsb f l'.
Proof.
  induction 1 as [|x l l' _ IH|x y l|l l' l'' _ IH1 _ IH2]; simpl.
  - done.
  - by rewrite IH.
  - by destruct (f x), (f y).
  - by rewrite IH1.
Qed.

Lemma get_str_TypeError (t : Task) (f : string) (e : exn) :
  get_str t f = Throw e -> e = TypeError.
Proof. unfold get_str. destruct (t !! f); congruence. Qed.

Lemma fieldIncludes_TypeError (t : Task) (f lowerCaseSearch : string) (e : exn) :
  fieldIncludes t f lowerCaseSearch = Throw e -> e = TypeError.
Proof.
  unfold fieldIncludes, get_str. destruct (t !! f); simpl; congruence.
Qed.

Lemma orElse_TypeError (a b : outcome bool) :
  (forall e, a = Throw e -> e = TypeError) ->
  (forall e, b = Throw e -> e = TypeError) ->
  forall e, orElse a b = Throw e -> e = TypeError.
Proof.
  intros Ha Hb e. unfold orElse. destruct a as [[|]|e']; simpl.
  - discriminate.
  - apply Hb.
  - intros [= <-]. by apply Ha.
Qed.

Lemma matchesSearch_TypeError (lowerCaseSearch : string) (t : Task) (e : exn) :
  matchesSearch lowerCaseSearch t = Throw e -> e = TypeError.
Proof.
  unfold matchesSearch.
  repeat (apply orElse_TypeError; [intros ?; apply fieldIncludes_TypeError|]).
  intros ?; apply fieldIncludes_TypeError.
Qed.

Lemma filteredTasks_spec (l : list Task) (searchTerm : string) :
  filteredTasks l searchTerm =
    if (searchTerm =? "")%string then Ret l
    else
      let callback := matchesSearch (JS.toLowerCase searchTerm) in
      if existsb (throws callback) l then Throw TypeError
      else Ret (List.filter (accepts callback) l).
Proof.
  unfold filteredTasks. simpl. rewrite negb_involutive.
  destruct (searchTerm =? "")%string; [done|].
  apply JS_filter_spec. intros x e. apply matchesSearch_TypeError.
Qed.

(** ** The search filter *)

Lemma fieldIncludes_present (t : Task) (f lowerCaseSearch v : string) :
  t !! f = Some v ->
  fieldIncludes t f lowerCaseSearch
  = Ret (JS.includes (JS.toLowerCase v) lowerCaseSearch).
Proof. intros H. unfold fieldIncludes, get_str. by rewrite H. Qed.

Lemma fieldIncludes_absent (t : Task) (f lowerCaseSearch : string) :
  t !! f = None -> fieldIncludes t f lowerCaseSearch = Throw TypeError.
Proof. intros H. unfold fieldIncludes, get_str. by rewrite H. Qed.

Lemma field_hit_includes (searchTerm : string) (t : Task) (f v : string) :
  t !! f = Some v ->
  field_hit searchTerm t f <->
  JS.includes (JS.toLowerCase v) (JS.toLowerCase searchTerm) = true.
Proof.
  intros Hv. rewrite includes_substring. unfold field_hit. split.
  - intros (v' & Hv' & Hs). congruence.
  - eauto.
Qed.

(** On a task that has the four fields the callback returns, and returns
    [true] exactly on a hit. *)
Lemma matchesSearch_searchable (searchTerm : string) (t : Task) :
  searchable t ->
  exists b, matchesSearch (JS.toLowerCase searchTerm) t = Ret b /\
            (b = true <-> search_hit searchTerm t).
Proof.
  intros Hs. unfold searchable, searchableFields in Hs.
  apply Forall_cons_1 in Hs as [[v1 H1] Hs].
  apply Forall_cons_1 in Hs as [[v2 H2] Hs].
  apply Forall_cons_1 in Hs as [[v3 H3] Hs].
  apply Forall_cons_1 in Hs as [[v4 H4] _].
  unfold matchesSearch, search_hit.
  rewrite (fieldIncludes_present t "title" _ v1 H1),
    (fieldIncludes_present t "description" _ v2 H2),
    (fieldIncludes_present t "status" _ v3 H3),
    (fieldIncludes_present t "priority" _ v4 H4).
  exists (JS.includes (JS.toLowerCase v1) (JS.toLowerCase searchTerm)
          || JS.includes (JS.toLowerCase v2) (JS.toLowerCase searchTerm)
          || JS.includes (JS.toLowerCase v3) (JS.toLowerCase searchTerm)
          || JS.includes (JS.toLowerCase v4) (JS.toLowerCase searchTerm)).
  split.
  - by repeat (destruct (JS.includes _ _); simpl).
  - rewrite (field_hit_includes searchTerm t "title" v1 H1),
      (field_hit_includes searchTerm t "description" v2 H2),
      (field_hit_includes searchTerm t "status" v3 H3),
      (field_hit_includes searchTerm t "priority" v4 H4).
    rewrite !orb_true_iff. tauto.
Qed.

Lemma existsb_throws_searchable (searchTerm : string) (l : list Task) :
  Forall searchable l ->
  existsb (throws (matchesSearch (JS.toLowerCase searchTerm))) l = false.
Proof.
  induction 1 as [|t l Ht _ IH]; simpl; [done|].
  rewrite IH, orb_false_r. unfold throws.
  by destruct (matchesSearch_searchable searchTerm t Ht) as (b & -> & _).
Qed.

(** C7.  The empty search term returns the list as it is.  For a non-empty
    search term and a list of tasks that have the four searchable fields,
    the filter step returns the tasks of the list, in their order, that
    are hits: those for which the lower-cased search term is a substring of
    the lower-cased title, description, status or priority. *)
Theorem filteredTasks_keeps_hits (l : list Task) (searchTerm : string) :
  filteredTasks l "" = Ret l /\
  (searchTerm <> "" -> Forall searchable l ->
   exists keep : Task -> bool,
     filteredTasks l searchTerm = Ret (List.filter keep l) /\
     forall t, searchable t -> (keep t = true <-> search_hit searchTerm t)).
Proof.
  split; [done|]. intros Hne Hl.
  exists (accepts (matchesSearch (JS.toLowerCase searchTerm))). split.
  - rewrite filteredTasks_spec. apply String.eqb_neq in Hne. rewrite Hne.
    cbv zeta. by rewrite existsb_throws_searchable.
  - intros t Ht. unfold accepts.
    by destruct (matchesSearch_searchable searchTerm t Ht) as (b & -> & Hb).
Qed.

Lemma sample_tasks_searchable : Forall searchable [task1; task2; task3].
Proof. repeat constructor; by eexists. Qed.

Lemma filteredTasks_keeps_hits_witness :
  exists keep : Task -> bool,
    filteredTasks [task1; task2; task3] "high"
    = Ret (List.filter keep [task1; task2; task3]) /\
    forall t, searchable t -> (keep t = true <-> search_hit "high" t).
Proof.
  apply (filteredTasks_keeps_hits [task1; task2; task3] "high").
  - discriminate.
  - repeat constructor; by eexists.
Defined.

(** The task with priority "High" is what the search "high" returns. *)
Example search_high : filteredTasks [task1; task2; task3] "high" = Ret [task1].
Proof. vm_compute. reflexivity. Qed.

Example search_status_any_case :
  filteredTasks [task1; task2; task3] "PEND" = Ret [task1; task3].
Proof. vm_compute. reflexivity. Qed.

(** ** The pipeline: sort, filter, page *)

(** C2.  For every task list, search term, sort configuration and page
    number, what the screen displays (sort, then filter, then slice) is
    what filtering the raw tasks first, sorting the result and slicing it
    gives; this includes the inputs on which the filter throws, where both
    throw. *)
Theorem displayedPage_refines_spec (tasks : list Task) (searchTerm : string)
    (sortConfig : SortConfig) (currentPage : Z) :
  displayedPage tasks searchTerm sortConfig currentPage
  = specPipeline tasks searchTerm sortConfig currentPage.
Proof.
  unfold displayedPage, specPipeline. rewrite !filteredTasks_spec.
  destruct (searchTerm =? "")%string; [done|]. cbv zeta.
  rewrite (existsb_Permutation _ _ _ (sortedTasks_Permutation tasks sortConfig)).
  destruct (existsb _ tasks); [done|]. simpl.
  by rewrite sortedTasks_filter.
Qed.

Example displayedPage_sample :
  displayedPage [task1; task2; task3] "pend"
    {| key := "title"; direction := "asc" |} 1 = Ret [task3; task1].
Proof. vm_compute. reflexivity. Qed.

(** ** Absent fields: the sort defaults, the filter throws *)

Lemma matchesSearch_absent (lowerCaseSearch : string) (t : Task) :
  lowerCaseSearch <> "" ->
  t !! "title" = None \/
  (t !! "title" = Some "" /\
   (t !! "description" = None \/
    (t !! "description" = Some "" /\
     (t !! "status" = None \/
      (t !! "status" = Some "" /\ t !! "priority" = None))))) ->
  matchesSearch lowerCaseSearch t = Throw TypeError.
Proof.
  intros Hne H. unfold matchesSearch.
  assert (JS.includes (JS.toLowerCase "") lowerCaseSearch = false) as He
    by by apply includes_empty_string.
  destruct H as [H1|[H1 [H2|[H2 [H3|[H3 H4]]]]]].
  - by rewrite (fieldIncludes_absent _ _ _ H1).
  - rewrite (fieldIncludes_present _ _ _ _ H1), He.
    by rewrite (fieldIncludes_absent _ _ _ H2).
  - rewrite (fieldIncludes_present _ _ _ _ H1), He.
    rewrite (fieldIncludes_present _ _ _ _ H2), He.
    by rewrite (fieldIncludes_absent _ _ _ H3).
  - rewrite (fieldIncludes_present _ _ _ _ H1), He.
    rewrite (fieldIncludes_present _ _ _ _ H2), He.
    rewrite (fieldIncludes_present _ _ _ _ H3), He.
    by rewrite (fieldIncludes_absent _ _ _ H4).
Qed.

Lemma filteredTasks_throws (l : list Task) (searchTerm : string) (t : Task) :
  searchTerm <> "" -> In t l ->
  matchesSearch (JS.toLowerCase searchTerm) t = Throw TypeError ->
  filteredTasks l searchTerm = Throw TypeError.
Proof.
  intros Hne Hin Ht. rewrite filteredTasks_spec.
  apply String.eqb_neq in Hne. rewrite Hne. cbv zeta.
  assert (existsb (throws (matchesSearch (JS.toLowerCase searchTerm))) l = true)
    as ->; [|done].
  apply existsb_exists. exists t. split; [done|]. unfold throws. by rewrite Ht.
Qed.

(** C10.  The sort reads a missing sort-key value as the empty string: a
    task without the field compares as the same task with the field set to
    the empty string, and the sort returns a permutation of any list it is
    given.  The filter has no such default: for every non-empty search
    term, a list that contains a task without a title makes the filter
    step throw a TypeError, and so does, for each of the four searchable
    fields, the one-task list whose task lacks just that field. *)
Theorem filter_throws_where_sort_defaults :
  (forall sortConfig (a b : Task), a !! key sortConfig = None ->
     compareTasks sortConfig a b
       = compareTasks sortConfig (<[key sortConfig := ""]> a) b /\
     compareTasks sortConfig b a
       = compareTasks sortConfig b (<[key sortConfig := ""]> a)) /\
  (forall tasks sortConfig, Permutation (sortedTasks tasks sortConfig) tasks) /\
  (forall searchTerm tasks sortConfig (t : Task),
     searchTerm <> "" -> In t tasks -> t !! "title" = None ->
     filteredTasks (sortedTasks tasks sortConfig) searchTerm = Throw TypeError) /\
  (forall searchTerm sortConfig f,
     searchTerm <> "" -> In f searchableFields ->
     filteredTasks (sortedTasks [delete f emptyTask] sortConfig) searchTerm
     = Throw TypeError).
Proof.
  split; [|split; [|split]].
  - intros sortConfig a b Ha. unfold compareTasks.
    by rewrite lookup_insert_eq, Ha.
  - apply sortedTasks_Permutation.
  - intros searchTerm tasks sortConfig t Hne Hin Ht.
    apply (filteredTasks_throws _ _ t); [done| |].
    + eapply Permutation_in; [symmetry; apply sortedTasks_Permutation | done].
    + apply matchesSearch_absent; [by apply toLowerCase_nonempty | by left].
  - intros searchTerm sortConfig f Hne Hf.
    apply (filteredTasks_throws _ _ (delete f emptyTask)); [done| |].
    + eapply Permutation_in; [symmetry; apply sortedTasks_Permutation | by left].
    + apply matchesSearch_absent; [by apply toLowerCase_nonempty|].
      destruct Hf as [<-|[<-|[<-|[<-|[]]]]].
      * by left.
      * right. split; [done|]. by left.
      * right. split; [done|]. right. split; [done|]. by left.
      * right. split; [done|]. right. split; [done|]. right. by split.
Qed.

Lemma filter_throws_where_sort_defaults_witness :
  filteredTasks
    (sortedTasks [delete "status" emptyTask]
       {| key := "status"; direction := "asc" |}) "pending"
  = Throw TypeError.
Proof.
  destruct filter_throws_where_sort_defaults as (_ & _ & _ & H).
  apply H.
  - discriminate.
  - right; right; by left.
Defined.

(** A loaded record without a status: sorting by status goes through, the
    search does not. *)
Example sort_absent_status :
  sortedTasks [task1; delete "status" task2] {| key := "status"; direction := "asc" |}
  = [delete "status" task2; task1].
Proof. vm_compute. reflexivity. Qed.

Example search_absent_status :
  filteredTasks [task1; delete "status" task2] "zzz" = Throw TypeError.
Proof. vm_compute. reflexivity. Qed.

(** ** Pagination *)

Lemma ceil_div_spec (a b : Z) :
  0 < b -> b * (JS.ceil_div a b - 1) < a <= b * JS.ceil_div a b.
Proof.
  intros Hb. unfold JS.ceil_div.
  pose proof (Z.div_mod (- a) b) as Hd.
  pose proof (Z.mod_pos_bound (- a) b Hb) as Hm. nia.
Qed.

Lemma totalPages_bounds (filtered : list Task) :
  tasksPerPage * (totalPages filtered - 1) < Z.of_nat (length filtered)
  <= tasksPerPage * totalPages filtered.
Proof. by apply ceil_div_spec. Qed.

Lemma totalPages_nonneg (filtered : list Task) : 0 <= totalPages filtered.
Proof.
  pose proof (totalPages_bounds filtered). unfold tasksPerPage in *. lia.
Qed.

Lemma slice_nonneg {A} (l : list A) (start end_ : Z) :
  0 <= start <= end_ ->
  JS.slice l start end_
  = firstn (Z.to_nat (end_ - start)) (skipn (Z.to_nat start) l).
Proof.
  intros H. unfold JS.slice.
  rewrite (proj2 (Z.ltb_ge start 0)), (proj2 (Z.ltb_ge end_ 0)) by lia.
  destruct (Z.le_gt_cases start (Z.of_nat (length l))) as [Hle|Hgt].
  - rewrite (Z.min_l start) by lia.
    destruct (Z.le_gt_cases end_ (Z.of_nat (length l))) as [Hle'|Hgt'].
    + by rewrite Z.min_l by lia.
    + rewrite Z.min_r by lia.
      rewrite (firstn_all2 (n := Z.to_nat (end_ - start)))
        by (rewrite length_skipn; lia).
      apply firstn_all2. rewrite length_skipn. lia.
  - rewrite !Z.min_r by lia. rewrite Z.sub_diag.
    rewrite !skipn_all2 by lia. by rewrite !firstn_nil.
Qed.

Lemma currentTasks_firstn_skipn (filtered : list Task) (p : Z) :
  1 <= p ->
  currentTasks filtered p = firstn 5 (skipn (Z.to_nat ((p - 1) * 5)) filtered).
Proof.
  intros Hp. unfold currentTasks, tasksPerPage.
  rewrite slice_nonneg by lia.
  by replace ((p - 1) * 5 + 5 - (p - 1) * 5) with 5 by lia.
Qed.

(** C5.  For a page number [p >= 1] the page is the slice of the filtered
    list from index [(p-1)*5] up to, not including, [p*5]: its [j]-th
    element is element [(p-1)*5 + j] of the filtered list for [j < 5], and
    it has no others.  [totalPages] is the least integer [n] with
    [length <= 5 * n], that is the ceiling of [length / 5]; it is 0 for the
    empty list.  With 12 filtered tasks page 1 has 5 items, page 3 has 2
    and there are 3 pages. *)
Theorem currentTasks_slice (filtered : list Task) (p : Z) :
  (1 <= p ->
     currentTasks filtered p
     = firstn 5 (skipn (Z.to_nat ((p - 1) * 5)) filtered) /\
     forall j : nat,
       nth_error (currentTasks filtered p) j
       = if (j <? 5)%nat then nth_error filtered (Z.to_nat ((p - 1) * 5) + j)
         else None) /\
  (5 * (totalPages filtered - 1) < Z.of_nat (length filtered)
   <= 5 * totalPages filtered) /\
  totalPages [] = 0 /\
  (length filtered = 12%nat ->
     length (currentTasks filtered 1) = 5%nat /\
     length (currentTasks filtered 3) = 2%nat /\
     totalPages filtered = 3).
Proof.
  split; [|split; [|split]].
  - intros Hp. split; [by apply currentTasks_firstn_skipn|].
    intros j. rewrite currentTasks_firstn_skipn by done.
    rewrite nth_error_firstn. destruct (j <? 5)%nat; [|done].
    apply nth_error_skipn.
  - apply totalPages_bounds.
  - reflexivity.
  - intros Hlen. rewrite !currentTasks_firstn_skipn by lia.
    rewrite !length_firstn, !length_skipn, Hlen.
    unfold totalPages. rewrite Hlen. by vm_compute.
Qed.

Lemma currentTasks_slice_witness :
  length (currentTasks (repeat task1 12) 1) = 5%nat /\
  length (currentTasks (repeat task1 12) 3) = 2%nat /\
  totalPages (repeat task1 12) = 3.
Proof.
  apply (currentTasks_slice (repeat task1 12) 1). reflexivity.
Defined.

(** ** The page number *)

Lemma pageEffect_in_range (currentPage totalPages : Z) :
  1 <= currentPage -> 0 <= totalPages ->
  page_in_range (pageEffect currentPage totalPages) totalPages.
Proof.
  intros Hc Ht. unfold pageEffect, page_in_range.
  destruct (Z.gtb_spec currentPage totalPages),
    (Z.gtb_spec totalPages 0), (Z.eqb_spec totalPages 0); simpl; lia.
Qed.

Lemma pageEffect_clamps (currentPage totalPages : Z) :
  (totalPages < currentPage -> 0 < totalPages ->
     pageEffect currentPage totalPages = totalPages) /\
  (totalPages = 0 -> pageEffect currentPage totalPages = 1) /\
  (currentPage <= totalPages -> 0 < totalPages ->
     pageEffect currentPage totalPages = currentPage).
Proof.
  unfold pageEffect.
  destruct (Z.gtb_spec currentPage totalPages),
    (Z.gtb_spec totalPages 0), (Z.eqb_spec totalPages 0); simpl; lia.
Qed.

(** Running the effect again changes nothing: one run settles the page. *)
Lemma pageEffect_idempotent (currentPage totalPages : Z) :
  pageEffect (pageEffect currentPage totalPages) totalPages
  = pageEffect currentPage totalPages.
Proof.
  unfold pageEffect.
  destruct (Z.gtb_spec currentPage totalPages),
    (Z.gtb_spec totalPages 0), (Z.eqb_spec totalPages 0); simpl;
    repeat match goal with
           | |- context [?a >? ?b] => destruct (Z.gtb_spec a b)
           | |- context [?a =? ?b] => destruct (Z.eqb_spec a b)
           end; simpl; lia.
Qed.

Lemma filteredOf_runEffect (st : ListState) :
  filteredOf (runEffect st) = filteredOf st.
Proof. unfold runEffect. by destruct (filteredOf st) eqn:H. Qed.

Lemma runEffect_currentPage (st : ListState) (filtered : list Task) :
  filteredOf st = Ret filtered ->
  currentPage (runEffect st) = pageEffect (currentPage st) (totalPages filtered).
Proof. intros H. unfold runEffect. by rewrite H. Qed.

Lemma runEffect_page_ge_1 (st : ListState) :
  1 <= currentPage st -> 1 <= currentPage (runEffect st).
Proof.
  intros Hc. unfold runEffect. destruct (filteredOf st) as [f|e]; [|done].
  simpl. pose proof (totalPages_nonneg f).
  pose proof (pageEffect_in_range (currentPage st) (totalPages f) Hc).
  unfold page_in_range in *. lia.
Qed.

Lemma handle_page_ge_1 (e : event) (st st' : ListState) :
  1 <= currentPage st -> handle e st = Some st' -> 1 <= currentPage st'.
Proof.
  intros Hc. unfold handle. destruct (filteredOf st) as [f|]; [|done].
  destruct e; simpl.
  - by intros [= <-].
  - by intros [= <-].
  - destruct (sortable k); [by intros [= <-] | done].
  - destruct (_ && _); [|done]. intros [= <-]. simpl. lia.
  - destruct (Z.gtb_spec (totalPages f) 1); simpl; [|done].
    destruct (negb _); [|done]. intros [= <-]. simpl. lia.
  - destruct (Z.gtb_spec (totalPages f) 1); simpl; [|done].
    destruct (Z.leb_spec 1 page); simpl; [|done].
    destruct (page <=? totalPages f); [|done]. by intros [= <-].
Qed.

(** In every state of the mounted screen the page number is at least 1. *)
Lemma reachable_page_ge_1 (st : ListState) :
  reachable st -> 1 <= currentPage st.
Proof.
  induction 1 as [l|st e st' _ IH He].
  - by apply runEffect_page_ge_1.
  - apply runEffect_page_ge_1. by eapply handle_page_ge_1.
Qed.

(** ... and is in range whenever the render goes through. *)
Lemma reachable_page_in_range (st : ListState) (filtered : list Task) :
  reachable st -> filteredOf st = Ret filtered ->
  page_in_range (currentPage st) (totalPages filtered).
Proof.
  intros Hr Hf.
  assert (exists st0, st = runEffect st0 /\ 1 <= currentPage st0)
    as (st0 & -> & Hc).
  { destruct Hr as [l|st e st' Hr He].
    - by exists (initialState l).
    - exists st'. split; [done|].
      eapply handle_page_ge_1; [by apply reachable_page_ge_1 | done]. }
  rewrite filteredOf_runEffect in Hf.
  rewrite (runEffect_currentPage _ _ Hf).
  apply pageEffect_in_range; [done | apply totalPages_nonneg].
Qed.

(** C6.  After every event of the mounted list screen (a change of the
    task list, of the search term or of the sort key or direction, or a
    page button), once the page-correction effect has run on the state the
    event left, the page number is in range for the total number of pages
    just computed: it is 1 when there are no pages and between 1 and
    [totalPages] otherwise.  A page number above [totalPages > 0] has
    become [totalPages], with [totalPages = 0] it has become 1, and a page
    number that was in range is unchanged. *)
Theorem page_correction_restores_range (st : ListState) (e : event)
    (st' : ListState) (filtered : list Task) :
  reachable st -> handle e st = Some st' -> filteredOf st' = Ret filtered ->
  let totalPages := totalPages filtered in
  let corrected := currentPage (runEffect st') in
  page_in_range corrected totalPages /\
  (totalPages < currentPage st' -> 0 < totalPages -> corrected = totalPages) /\
  (totalPages = 0 -> corrected = 1) /\
  (currentPage st' <= totalPages -> 0 < totalPages ->
     corrected = currentPage st').
Proof.
  intros Hr He Hf. cbv zeta.
  rewrite (runEffect_currentPage _ _ Hf).
  split; [|apply pageEffect_clamps].
  apply pageEffect_in_range; [|apply totalPages_nonneg].
  eapply handle_page_ge_1; [by apply reachable_page_ge_1 | done].
Qed.

Lemma page_correction_restores_range_witness :
  let sortConfig := {| key := "dueDate"; direction := "asc" |} in
  let st' := {| tasks := [task1]; sortConfig := sortConfig;
                searchTerm := ""; currentPage := 2 |} in
  page_in_range (currentPage (runEffect st')) (totalPages [task1]) /\
  (totalPages [task1] < 2 -> 0 < totalPages [task1] ->
     currentPage (runEffect st') = totalPages [task1]) /\
  (totalPages [task1] = 0 -> currentPage (runEffect st') = 1) /\
  (2 <= totalPages [task1] -> 0 < totalPages [task1] ->
     currentPage (runEffect st') = 2).
Proof.
  apply (page_correction_restores_range
           (runEffect {| tasks := [task1; task2; task3; task1; task2; task3];
                         sortConfig := {| key := "dueDate"; direction := "asc" |};
                         searchTerm := ""; currentPage := 2 |})
           (TasksChanged [task1])).
  - apply (reach_event
             (runEffect (initialState [task1; task2; task3; task1; task2; task3]))
             Next).
    + apply reach_mount.
    + vm_compute. reflexivity.
  - vm_compute. reflexivity.
  - vm_compute. reflexivity.
Defined.

(** Six tasks, the second page shown, then all but one task deleted: the
    page number goes back to 1. *)
Example page_clamped_after_delete :
  currentPage
    (runEffect {| tasks := [task1];
                  sortConfig := {| key := "dueDate"; direction := "asc" |};
                  searchTerm := ""; currentPage := 2 |}) = 1.
Proof. vm_compute. reflexivity. Qed.

(** * Further properties of the code *)

(** ** Validation rule: the other fields, and acceptance *)

Lemma validateTaskForm_description_lookup values :
  validateTaskForm values !! "description" =
    if blank (values !! "description") then Some description_required else None.
Proof.
  unfold validateTaskForm.
  repeat match goal with
         | |- context [if ?b then _ else _] => destruct b
         end; by simplify_map_eq.
Qed.

Lemma validateTaskForm_dueDate_lookup values :
  validateTaskForm values !! "dueDate" =
    if JS.truthy (values !! "dueDate") then None else Some dueDate_required.
Proof.
  unfold validateTaskForm. destruct (JS.truthy (values !! "dueDate")); simpl;
  repeat match goal with
         | |- context [if ?b then _ else _] => destruct b
         end; by simplify_map_eq.
Qed.

Lemma validateTaskForm_other_lookup values (f : string) :
  f <> "title" -> f <> "description" -> f <> "dueDate" ->
  validateTaskForm values !! f = None.
Proof.
  intros H1 H2 H3. unfold validateTaskForm.
  repeat match goal with
         | |- context [if ?b then _ else _] => destruct b
         end; by simplify_map_eq.
Qed.

Lemma truthy_Some (v : option string) :
  JS.truthy v = true <-> exists s, v = Some s /\ s <> "".
Proof.
  destruct v as [s|]; simpl.
  - rewrite negb_true_iff, String.eqb_neq. split; [eauto | by intros (? & [= <-] & ?)].
  - split; [discriminate | by intros (? & ? & _)].
Qed.

Lemma not_missing_Some (v : option string) :
  ~ missing v <-> exists s, v = Some s /\ ~ whitespace_only s.
Proof.
  destruct v as [s|]; simpl.
  - split; [eauto | by intros (? & [= <-] & ?)].
  - split; [tauto | by intros (? & ? & _)].
Qed.

(** X1.  The description gets the error "Description is required."
    exactly when it is absent, empty or white space only.  The due date
    gets "Due Date is required." exactly when it is absent or empty: it is
    not trimmed, so a due date of white space passes.  The three rules do
    not influence one another, and no other field ever gets an error. *)
Theorem validateTaskForm_description_dueDate (values : Obj) :
  (validateTaskForm values !! "description" = Some description_required
   <-> missing (values !! "description")) /\
  (validateTaskForm values !! "description" = None
   <-> ~ missing (values !! "description")) /\
  (validateTaskForm values !! "dueDate" = Some dueDate_required
   <-> values !! "dueDate" = None \/ values !! "dueDate" = Some "") /\
  (validateTaskForm values !! "dueDate" = None
   <-> exists d, values !! "dueDate" = Some d /\ d <> "") /\
  (forall f, f <> "title" -> f <> "description" -> f <> "dueDate" ->
             validateTaskForm values !! f = None).
Proof.
  rewrite validateTaskForm_description_lookup, validateTaskForm_dueDate_lookup.
  pose proof (blank_missing (values !! "description")) as Hb.
  pose proof (truthy_Some (values !! "dueDate")) as Ht.
  assert (JS.truthy (values !! "dueDate") = false
          <-> values !! "dueDate" = None \/ values !! "dueDate" = Some "") as Hf.
  { destruct (values !! "dueDate") as [s|]; simpl.
    - rewrite negb_false_iff, String.eqb_eq. split; [intros ->; by right|].
      by intros [?|[= ?]].
    - split; [by left | done]. }
  split; [|split; [|split; [|split]]].
  - destruct (blank _).
    + split; [intros _; by apply Hb | done].
    + split; [discriminate|]. intros Hm. by apply Hb in Hm.
  - destruct (blank _).
    + split; [discriminate|]. intros Hm. exfalso. apply Hm. by apply Hb.
    + split; [|done]. intros _ Hm. by apply Hb in Hm.
  - rewrite <- Hf. destruct (JS.truthy _); split; done.
  - rewrite <- Ht. destruct (JS.truthy _); split; done.
  - apply validateTaskForm_other_lookup.
Qed.

Lemma validateTaskForm_empty values :
  validateTaskForm values = ∅ <->
  validateTaskForm values !! "title" = None /\
  validateTaskForm values !! "description" = None /\
  validateTaskForm values !! "dueDate" = None.
Proof.
  split.
  - intros ->. by rewrite !lookup_empty.
  - intros (H1 & H2 & H3). apply map_eq. intros f. rewrite lookup_empty.
    destruct (decide (f = "title")) as [->|?]; [done|].
    destruct (decide (f = "description")) as [->|?]; [done|].
    destruct (decide (f = "dueDate")) as [->|?]; [done|].
    by apply validateTaskForm_other_lookup.
Qed.

Lemma accepted_fields (values : Obj) :
  validateTaskForm values = ∅ <->
  (exists t, values !! "title" = Some t /\ ~ whitespace_only t /\
             (3 <= String.length t)%nat) /\
  (exists d, values !! "description" = Some d /\ ~ whitespace_only d) /\
  (exists d, values !! "dueDate" = Some d /\ d <> "").
Proof.
  rewrite validateTaskForm_empty.
  rewrite validateTaskForm_title_lookup, validateTaskForm_description_lookup,
    validateTaskForm_dueDate_lookup.
  rewrite <- (not_missing_Some (values !! "description")).
  rewrite <- (truthy_Some (values !! "dueDate")).
  pose proof (not_missing_Some (values !! "title")) as Hn1.
  split.
  - intros (H1 & H2 & H3).
    destruct (blank (values !! "title")) eqn:B1; [discriminate|].
    destruct (Nat.ltb_spec (String.length (JS.or_empty (values !! "title"))) 3)
      as [|Hlen]; [discriminate|].
    destruct (blank (values !! "description")) eqn:B2; [discriminate|].
    destruct (JS.truthy (values !! "dueDate")); [|discriminate].
    split; [|split; [|done]].
    + destruct (proj1 Hn1) as (t & Ht & Hws).
      { intros Hm. apply blank_missing in Hm. congruence. }
      exists t. rewrite Ht in Hlen. by simpl in Hlen.
    + intros Hm. apply blank_missing in Hm. congruence.
  - intros ((t & Ht & Hws & Hlen) & Hd & Hdue).
    destruct (blank (values !! "title")) eqn:B1.
    { exfalso. apply blank_missing in B1. rewrite Ht in B1. by simpl in B1. }
    rewrite Ht. simpl. rewrite (proj2 (Nat.ltb_ge _ _) Hlen).
    destruct (blank (values !! "description")) eqn:B2.
    { exfalso. apply Hd. by apply blank_missing. }
    by rewrite Hdue.
Qed.

(** X2.  The form is accepted (validation returns no error) exactly when
    the title is present, not white space only and at least 3 characters
    long as typed, the description is present and not white space only,
    and the due date is present and not empty. *)
Theorem validate_accepts_iff (values : Obj) :
  validate values = true <->
  (exists t, values !! "title" = Some t /\ ~ whitespace_only t /\
             (3 <= String.length t)%nat) /\
  (exists d, values !! "description" = Some d /\ ~ whitespace_only d) /\
  (exists d, values !! "dueDate" = Some d /\ d <> "").
Proof. rewrite validate_true. apply accepted_fields. Qed.

Example validate_whitespace_dueDate :
  validate (<["dueDate" := " "]> task1) = true.
Proof. vm_compute. reflexivity. Qed.

(** ** Form state *)

Lemma errorOf_validate (validateFn : Obj -> Obj) (st : Form.State) (f : string) :
  Form.errorOf (fst (Form.validate validateFn st)) f
  = validateFn (Form.values st) !! f.
Proof.
  unfold Form.errorOf, Form.validate. simpl. rewrite lookup_fmap.
  by destruct (validateFn (Form.values st) !! f).
Qed.

Lemma handleChange_values (name value : string) (st : Form.State) (f : string) :
  Form.values (Form.handleChange name value st) !! f
  = if decide (name = f) then Some value else Form.values st !! f.
Proof. unfold Form.handleChange. simpl. apply lookup_insert. Qed.

Lemma handleChange_errorOf (name value : string) (st : Form.State) (f : string) :
  Form.errorOf (Form.handleChange name value st) f
  = if decide (name = f)
    then (if JS.truthy (Form.errorOf st f) then None else Form.errorOf st f)
    else Form.errorOf st f.
Proof.
  unfold Form.handleChange, Form.errorOf at 1. simpl.
  destruct (decide (name = f)) as [->|Hne].
  - destruct (JS.truthy (Form.errorOf st f)) eqn:Ht.
    + by rewrite lookup_insert_eq.
    + done.
  - destruct (JS.truthy (Form.errorOf st name)); [|done].
    by rewrite lookup_insert_ne.
Qed.

(** X3.  [handleChange] stores the new value under the field's name, leaves
    the field without a displayed error whether or not the new value is
    valid (it clears, it does not validate), and changes neither the value
    nor the displayed error of any other field. *)
Theorem handleChange_clears_without_validating (name value : string)
    (st : Form.State) :
  let st' := Form.handleChange name value st in
  Form.values st' !! name = Some value /\
  JS.truthy (Form.errorOf st' name) = false /\
  forall other, other <> name ->
    Form.values st' !! other = Form.values st !! other /\
    Form.errorOf st' other = Form.errorOf st other.
Proof.
  cbv zeta. split; [|split].
  - rewrite handleChange_values. by rewrite decide_True.
  - rewrite handleChange_errorOf, decide_True by done.
    by destruct (JS.truthy (Form.errorOf st name)) eqn:Ht.
  - intros other Hne.
    rewrite handleChange_values, handleChange_errorOf.
    by rewrite !decide_False by done.
Qed.

Lemma handleSubmit_saved (st : Form.State) (saved : Obj) :
  snd (handleSubmit st) = Some saved <->
  saved = Form.values st /\ validateTaskForm (Form.values st) = ∅.
Proof.
  unfold handleSubmit, Form.validate. simpl.
  rewrite <- (map_size_empty_iff (validateTaskForm (Form.values st))).
  destruct (Nat.eqb_spec (size (validateTaskForm (Form.values st))) 0).
  - split; [by intros [= <-] | by intros [-> _]].
  - split; [discriminate | by intros [_ ?]].
Qed.

Lemma validateTaskForm_message_nonempty values (f m : string) :
  validateTaskForm values !! f = Some m -> m <> "".
Proof.
  destruct (decide (f = "title")) as [->|?].
  { rewrite validateTaskForm_title_lookup.
    destruct (blank _); [by intros [= <-]|].
    destruct (_ <? _)%nat; [by intros [= <-] | done]. }
  destruct (decide (f = "description")) as [->|?].
  { rewrite validateTaskForm_description_lookup.
    destruct (blank _); [by intros [= <-] | done]. }
  destruct (decide (f = "dueDate")) as [->|?].
  { rewrite validateTaskForm_dueDate_lookup.
    destruct (JS.truthy _); [done | by intros [= <-]]. }
  by rewrite validateTaskForm_other_lookup.
Qed.

(** X4.  A submit hands the form values to [onSave] exactly when the
    validation rule returns no error, and then hands them over as they are
    (nothing is trimmed); it never changes the values; and after it each
    field displays exactly the message the rule gave for it.  Typing into a
    field after a rejected submit removes that field's message only. *)
Theorem handleSubmit_saves_iff_valid (st : Form.State) :
  let st' := fst (handleSubmit st) in
  (forall saved, snd (handleSubmit st) = Some saved <->
                 saved = Form.values st /\ validate (Form.values st) = true) /\
  Form.values st' = Form.values st /\
  (forall f, Form.errorOf st' f = validateTaskForm (Form.values st) !! f) /\
  (forall name value f,
     Form.errorOf (Form.handleChange name value st') f
     = if decide (name = f) then None
       else validateTaskForm (Form.values st) !! f).
Proof.
  cbv zeta. split; [|split; [done|split]].
  - intros saved. rewrite handleSubmit_saved. by rewrite validate_true.
  - intros f. apply (errorOf_validate validateTaskForm).
  - intros name value f. rewrite handleChange_errorOf.
    change (fst (handleSubmit st)) with (fst (Form.validate validateTaskForm st)).
    rewrite !errorOf_validate.
    destruct (decide (name = f)) as [->|]; [|done].
    destruct (validateTaskForm (Form.values st) !! f) as [m|] eqn:Hm; [|done].
    simpl. apply validateTaskForm_message_nonempty in Hm.
    apply String.eqb_neq in Hm. by rewrite Hm.
Qed.

(** ** Task form: what a form can save *)

Lemma formStep_values (e : formEvent) (st : Form.State) :
  Form.values (formStep e st)
  = match e with
    | Typed name value => <[name := value]> (Form.values st)
    | Submitted => Form.values st
    end.
Proof. by destruct e. Qed.

Lemma formRun_invariant (P : Obj -> Prop) (isEd : bool)
    (events : list formEvent) (initial : Obj) :
  P initial ->
  (forall name value vals,
     offered isEd (Typed name value) = true -> P vals ->
     P (<[name := value]> vals)) ->
  Forall (fun e => offered isEd e = true) events ->
  P (Form.values (formRun events initial)).
Proof.
  intros Hinit Hstep Hev. unfold formRun.
  assert (P (Form.values (Form.init initial))) as Hst by done.
  revert Hst. generalize (Form.init initial) as st.
  induction Hev as [|e events He _ IH]; intros st Hst; simpl; [done|].
  apply IH. rewrite formStep_values. destruct e; [by apply Hstep | done].
Qed.

Lemma offered_name (isEd : bool) (name value : string) :
  offered isEd (Typed name value) = true ->
  name = "title" \/ name = "description" \/ name = "dueDate" \/
  (name = "priority" /\ In value priorityOptions) \/
  (isEd = true /\ name = "status" /\ In value statusOptions).
Proof.
  unfold offered. rewrite !orb_true_iff, !andb_true_iff, !String.eqb_eq.
  intros [[[[?|?]|?]|[? Hp]]|[[? ?] Hs]]; auto.
  - right; right; right; left. split; [done|].
    apply existsb_exists in Hp as (p & Hin & Hp).
    apply String.eqb_eq in Hp. by subst.
  - right; right; right; right. split; [done|]. split; [done|].
    apply existsb_exists in Hs as (p & Hin & Hp).
    apply String.eqb_eq in Hp. by subst.
Qed.

Lemma searchable_insert_id (id : string) (vals : Obj) :
  searchable vals -> searchable (<["id" := id]> vals).
Proof.
  unfold searchable, searchableFields. intros H.
  repeat (apply Forall_cons_1 in H as [? H]).
  repeat constructor; by rewrite lookup_insert_ne.
Qed.

Lemma fields_kept (isEd : bool) (events : list formEvent) (initial : Obj)
    (f : string) :
  Forall (fun e => offered isEd e = true) events ->
  is_Some (initial !! f) ->
  is_Some (Form.values (formRun events initial) !! f).
Proof.
  intros Hev Hf.
  apply (formRun_invariant (fun vals => is_Some (vals !! f)) isEd); [done| |done].
  intros name value vals _ Hv. rewrite lookup_insert. by case_decide.
Qed.

(** X5.  Whatever the user does to the inputs of the Create form, the
    values a passing submit saves have status "Pending" (the form has no
    status input), a priority among Low, Medium and High, the empty id of
    the initial values, and a title, description and due date that satisfy
    the validation rule; the task [addTask] makes of them carries the
    generated id and has all four fields the search reads. *)
Theorem created_task_fields (freshId : string) (saved : Obj) :
  formSaves None saved ->
  let newTask := <["id" := freshId]> saved in
  saved !! "id" = Some "" /\
  newTask !! "id" = Some freshId /\
  newTask !! "status" = Some "Pending" /\
  (exists p, newTask !! "priority" = Some p /\ In p priorityOptions) /\
  (exists t, newTask !! "title" = Some t /\ ~ whitespace_only t /\
             (3 <= String.length t)%nat) /\
  (exists d, newTask !! "description" = Some d /\ ~ whitespace_only d) /\
  (exists d, newTask !! "dueDate" = Some d /\ d <> "") /\
  searchable newTask.
Proof.
  intros (today & events & Hev & Hsave). cbv zeta.
  apply handleSubmit_saved in Hsave as [-> Hvalid].
  set (vals := Form.values (formRun events (initialValues None today))) in *.
  assert (vals !! "id" = Some "" /\ vals !! "status" = Some "Pending" /\
          exists p, vals !! "priority" = Some p /\ In p priorityOptions)
    as (Hid & Hstatus & Hprio).
  { apply (formRun_invariant
             (fun vals => vals !! "id" = Some "" /\
                          vals !! "status" = Some "Pending" /\
                          exists p, vals !! "priority" = Some p /\
                                    In p priorityOptions) false);
      [|clear; intros name value vals Ho (Hid & Hst & Hp)|done].
    - split; [done|]. split; [done|]. exists "Medium". split; [done|].
      right; by left.
    - apply offered_name in Ho
        as [->|[->|[->|[[-> Hin]|[? _]]]]]; try discriminate;
        rewrite ?lookup_insert_ne by done; try done.
      split; [done|]. split; [done|]. exists value.
      by rewrite lookup_insert_eq. }
  apply accepted_fields in Hvalid as (Ht & Hd & Hdue).
  rewrite lookup_insert_eq, !lookup_insert_ne by done.
  repeat (split; [done|]).
  apply searchable_insert_id. unfold searchable, searchableFields.
  destruct Ht as (? & Ht & _), Hd as (? & Hd & _), Hprio as (? & Hp & _).
  repeat constructor; by eexists.
Qed.

Lemma created_task_fields_witness :
  (<["id" := "k1"]> (<["description" := "Ten pages"]>
     (<["title" := "Rep"]> (initialValues None "2024-06-01")))) !! "status"
  = Some "Pending".
Proof.
  apply (created_task_fields "k1").
  exists "2024-06-01", [Typed "title" "Rep"; Typed "description" "Ten pages"].
  split; [by repeat constructor | by vm_compute].
Defined.

(** X6.  Whatever the user does to the inputs of the Edit form of a task,
    the values a passing submit saves carry the id of that task, every
    field the form has no input for is as it was in the task, and no field
    of the task is lost; so the task the update replaces is the one that
    was edited. *)
Theorem edited_task_keeps_id (t : Task) (saved : Obj) :
  formSaves (Some t) saved ->
  saved !! "id" = t !! "id" /\
  (forall f, ~ In f ["title"; "description"; "dueDate"; "priority"; "status"] ->
             saved !! f = t !! f) /\
  (forall f, is_Some (t !! f) -> is_Some (saved !! f)) /\
  validate saved = true /\
  forall tasks, In t tasks -> findTask (t !! "id") (updateTask saved tasks) = Some saved.
Proof.
  intros (today & events & Hev & Hsave).
  apply handleSubmit_saved in Hsave as [-> Hvalid]. simpl in *.
  assert (forall f, ~ In f ["title"; "description"; "dueDate"; "priority"; "status"] ->
                    Form.values (formRun events t) !! f = t !! f) as Hkeep.
  { intros f Hf.
    apply (formRun_invariant (fun vals => vals !! f = t !! f) true); [done| |done].
    intros name value vals Ho Hv.
    rewrite lookup_insert_ne; [done|]. intros <-. apply Hf. simpl.
    apply offered_name in Ho as [->|[->|[->|[[-> _]|(_ & -> & _)]]]]; auto 10. }
  assert (Form.values (formRun events t) !! "id" = t !! "id") as Hid.
  { apply Hkeep. simpl. intros [?|[?|[?|[?|[?|[]]]]]]; discriminate. }
  split; [done|]. split; [done|].
  split; [intros f; by apply (fields_kept true)|].
  split; [by apply validate_true|].
  intros tasks Hin. rewrite <- Hid. apply findTask_updateTask.
  exists t. by rewrite Hid.
Qed.

Lemma edited_task_keeps_id_witness :
  (<["title" := "Buy oat milk"]> task2) !! "id" = task2 !! "id".
Proof.
  refine (proj1 (edited_task_keeps_id task2 _ _)).
  exists "2024-06-01", [Typed "title" "Buy oat milk"].
  split; [by repeat constructor | by vm_compute].
Defined.

(** ** Task repository: add, and how the operations compose *)

Lemma findTask_app (id : option string) (l1 l2 : list Task) :
  findTask id (l1 ++ l2)
  = match findTask id l1 with
    | Some t => Some t
    | None => findTask id l2
    end.
Proof.
  unfold findTask. induction l1 as [|x l1 IH]; simpl; [done|].
  by destruct (bool_decide (x !! "id" = id)).
Qed.

Lemma findTask_absent (id : option string) (l : list Task) :
  (forall t, In t l -> t !! "id" <> id) -> findTask id l = None.
Proof.
  unfold findTask. induction l as [|x l IH]; intros H; simpl; [done|].
  rewrite bool_decide_eq_false_2 by (apply H; by left).
  apply IH. intros t Hin. apply H. by right.
Qed.

Lemma findTask_present (id : option string) (l : list Task) :
  (exists t, In t l /\ t !! "id" = id) -> is_Some (findTask id l).
Proof.
  unfold findTask. induction l as [|x l IH]; intros (t & Hin & Hid).
  - destruct Hin.
  - simpl. destruct (bool_decide (x !! "id" = id)) eqn:Hx; [by eexists|].
    apply IH. destruct Hin as [->|Hin]; [|eauto].
    apply bool_decide_eq_false in Hx. contradiction.
Qed.

(** X7.  [addTask] puts the new record, the given data with its [id] field
    set to the generated id, at the end of the collection and leaves every
    record where it was.  Looking the generated id up afterwards finds the
    new record when no record had that id before; were the id already in
    use, the lookup would still find the older record. *)
Theorem addTask_appends (id : string) (newTaskData : Obj) (prev : list Task) :
  let newTask := <["id" := id]> newTaskData in
  let next := addTask id newTaskData prev in
  length next = S (length prev) /\
  (forall i old, nth_error prev i = Some old -> nth_error next i = Some old) /\
  nth_error next (length prev) = Some newTask /\
  newTask !! "id" = Some id /\
  (forall f, f <> "id" -> newTask !! f = newTaskData !! f) /\
  ((forall t, In t prev -> t !! "id" <> Some id) ->
     findTask (Some id) next = Some newTask) /\
  ((exists t, In t prev /\ t !! "id" = Some id) ->
     findTask (Some id) next = findTask (Some id) prev).
Proof.
  cbv zeta. unfold addTask. split; [|split; [|split; [|split; [|split; [|split]]]]].
  - rewrite length_app. simpl. lia.
  - intros i old Hi. rewrite nth_error_app1; [done|].
    apply nth_error_Some. congruence.
  - rewrite nth_error_app2 by lia. by rewrite Nat.sub_diag.
  - apply lookup_insert_eq.
  - intros f Hf. by rewrite lookup_insert_ne.
  - intros Hfresh. rewrite findTask_app, findTask_absent by done.
    unfold findTask. simpl. by rewrite bool_decide_eq_true_2 by apply lookup_insert_eq.
  - intros Hex. rewrite findTask_app.
    by destruct (findTask_present _ _ Hex) as [t ->].
Qed.

Lemma addTask_appends_witness :
  findTask (Some "t9") (addTask "t9" task1 [task2; task3])
  = Some (<["id" := "t9"]> task1).
Proof.
  apply (addTask_appends "t9" task1 [task2; task3]).
  intros t [<-|[<-|[]]]; discriminate.
Defined.

Lemma deleteTask_addTask (id : string) (newTaskData : Obj) (prev : list Task) :
  deleteTask id (addTask id newTaskData prev) = deleteTask id prev.
Proof.
  unfold addTask. rewrite deleteTask_app. simpl.
  rewrite bool_decide_eq_true_2 by apply lookup_insert_eq. simpl.
  apply app_nil_r.
Qed.

(** X8.  Deleting the id just generated by an add removes the added record
    again, together with whatever records already carried that id; so when
    the id was not in use, add followed by delete gives back the collection
    as it was. *)
Theorem add_then_delete (id : string) (newTaskData : Obj) (prev : list Task) :
  deleteTask id (addTask id newTaskData prev) = deleteTask id prev /\
  ((forall t, In t prev -> t !! "id" <> Some id) ->
     deleteTask id (addTask id newTaskData prev) = prev).
Proof.
  split; [apply deleteTask_addTask|].
  intros Hfresh. rewrite deleteTask_addTask. by apply deleteTask_absent.
Qed.

Lemma add_then_delete_witness :
  deleteTask "t9" (addTask "t9" task1 [task2; task3]) = [task2; task3].
Proof.
  apply (add_then_delete "t9" task1 [task2; task3]).
  intros t [<-|[<-|[]]]; discriminate.
Defined.

Lemma updateTask_updateTask (t1 t2 : Task) (l : list Task) :
  t1 !! "id" = t2 !! "id" ->
  updateTask t2 (updateTask t1 l) = updateTask t2 l.
Proof.
  intros Hid. unfold updateTask. rewrite map_map. apply map_ext. intros x.
  destruct (bool_decide (x !! "id" = t1 !! "id")) eqn:H1.
  - apply bool_decide_eq_true in H1.
    by rewrite !bool_decide_eq_true_2 by congruence.
  - done.
Qed.

Lemma updateTask_comm (t1 t2 : Task) (l : list Task) :
  t1 !! "id" <> t2 !! "id" ->
  updateTask t1 (updateTask t2 l) = updateTask t2 (updateTask t1 l).
Proof.
  intros Hne. unfold updateTask. rewrite !map_map. apply map_ext. intros x.
  destruct (bool_decide (x !! "id" = t1 !! "id")) eqn:H1,
    (bool_decide (x !! "id" = t2 !! "id")) eqn:H2;
    rewrite ?H1, ?H2; try done.
  - apply bool_decide_eq_true in H1, H2. congruence.
  - by rewrite (bool_decide_eq_false_2 (t1 !! "id" = t2 !! "id")) by done.
  - by rewrite (bool_decide_eq_false_2 (t2 !! "id" = t1 !! "id")) by done.
Qed.

(** X9.  Updates compose as writes to the record with the given id: of two
    updates with the same id the later one wins (so an update repeated is
    the update done once), and updates with different ids can be done in
    either order. *)
Theorem updates_compose (t1 t2 : Task) (l : list Task) :
  (t1 !! "id" = t2 !! "id" ->
     updateTask t2 (updateTask t1 l) = updateTask t2 l) /\
  updateTask t1 (updateTask t1 l) = updateTask t1 l /\
  (t1 !! "id" <> t2 !! "id" ->
     updateTask t1 (updateTask t2 l) = updateTask t2 (updateTask t1 l)).
Proof.
  split; [apply updateTask_updateTask|].
  split; [by apply updateTask_updateTask | apply updateTask_comm].
Qed.

Lemma updates_compose_witness :
  updateTask (<["title" := "B"]> task2)
    (updateTask (<["title" := "A"]> task2) [task1; task2; task3])
  = updateTask (<["title" := "B"]> task2) [task1; task2; task3].
Proof.
  apply (updates_compose (<["title" := "A"]> task2) (<["title" := "B"]> task2)).
  reflexivity.
Defined.

Lemma deleteTask_comm (a b : string) (l : list Task) :
  deleteTask a (deleteTask b l) = deleteTask b (deleteTask a l).
Proof.
  unfold deleteTask. induction l as [|x l IH]; simpl; [done|].
  destruct (bool_decide (x !! "id" = Some a)) eqn:Ha,
    (bool_decide (x !! "id" = Some b)) eqn:Hb; simpl;
    rewrite ?Ha, ?Hb; simpl; by rewrite ?IH.
Qed.

Lemma deleteTask_updateTask_same (taskId : string) (t : Task) (l : list Task) :
  t !! "id" = Some taskId ->
  deleteTask taskId (updateTask t l) = deleteTask taskId l.
Proof.
  intros Ht. unfold deleteTask, updateTask.
  induction l as [|x l IH]; simpl; [done|]. rewrite IH.
  destruct (bool_decide (x !! "id" = t !! "id")) eqn:Hx.
  - apply bool_decide_eq_true in Hx.
    by rewrite !bool_decide_eq_true_2 by congruence.
  - done.
Qed.

Lemma deleteTask_updateTask_other (taskId : string) (t : Task) (l : list Task) :
  t !! "id" <> Some taskId ->
  deleteTask taskId (updateTask t l) = updateTask t (deleteTask taskId l).
Proof.
  intros Ht. unfold deleteTask, updateTask.
  induction l as [|x l IH]; simpl; [done|]. rewrite IH.
  destruct (bool_decide (x !! "id" = t !! "id")) eqn:Hx.
  - apply bool_decide_eq_true in Hx.
    rewrite (bool_decide_eq_false_2 (t !! "id" = Some taskId)) by done.
    rewrite (bool_decide_eq_false_2 (x !! "id" = Some taskId)) by congruence.
    simpl. by rewrite bool_decide_eq_true_2 by done.
  - destruct (bool_decide (x !! "id" = Some taskId)); simpl; [done|].
    by rewrite Hx.
Qed.

(** X10.  Deletes can be done in either order.  A delete after an update
    of the same id makes the update void; a delete of another id commutes
    with the update. *)
Theorem deletes_compose (a b : string) (t : Task) (l : list Task) :
  deleteTask a (deleteTask b l) = deleteTask b (deleteTask a l) /\
  (t !! "id" = Some a -> deleteTask a (updateTask t l) = deleteTask a l) /\
  (t !! "id" <> Some a ->
     deleteTask a (updateTask t l) = updateTask t (deleteTask a l)).
Proof.
  split; [apply deleteTask_comm|].
  split; [apply deleteTask_updateTask_same | apply deleteTask_updateTask_other].
Qed.

Lemma deletes_compose_witness :
  deleteTask "t2" (updateTask (<["title" := "A"]> task2) [task1; task2; task3])
  = deleteTask "t2" [task1; task2; task3].
Proof.
  apply (deletes_compose "t2" "t2" (<["title" := "A"]> task2)).
  reflexivity.
Defined.

(** ** Saving and loading *)

Section SaveLoad.
Variable JSON_stringify : list Task -> string.
Variable JSON_parse : string -> outcome (list Task).
Variable setItem : Storage -> string -> string -> outcome Storage.


(** X12.  The save effect never throws, and a write the store refuses
    leaves the store as it was, so that the next start loads what it would
    have loaded before. *)
Theorem save_failure_keeps_store (st : Storage) (tasks : list Task) :
  (exists st', saveTasks JSON_stringify setItem st tasks = Ret st') /\
  (forall e, setItem st localStorageKey (JSON_stringify tasks) = Throw e ->
     saveTasks JSON_stringify setItem st tasks = Ret st /\
     forall after,
       saveTasks JSON_stringify setItem st tasks = Ret after ->
       loadTasks [] JSON_parse after = loadTasks [] JSON_parse st).
Proof.
  unfold saveTasks.
  destruct (setItem st localStorageKey (JSON_stringify tasks)) as [st'|e'] eqn:Hs;
    simpl.
  - split; [eauto | discriminate].
  - split; [eauto|]. intros e _. split; [done|]. by intros after [= <-].
Qed.
End SaveLoad.


Lemma save_failure_keeps_store_witness :
  saveTasks (fun _ => "[]") (fun _ _ _ => Throw SecurityError)
    {| accessible := false; items := ∅ |} [task1]
  = Ret {| accessible := false; items := ∅ |}.
Proof.
  refine (proj1 (proj2 (save_failure_keeps_store (fun _ => "[]")
                          (fun _ => Ret []) (fun _ _ _ => Throw SecurityError)
                          {| accessible := false; items := ∅ |} [task1])
                   SecurityError _)).
  reflexivity.
Defined.

(** ** Pagination: the pages together, their sizes, the range shown *)

Lemma currentTasks_chunk (filtered : list Task) (i : nat) :
  currentTasks filtered (Z.of_nat i + 1) = firstn 5 (skipn (5 * i) filtered).
Proof.
  rewrite currentTasks_firstn_skipn by lia.
  by replace (Z.to_nat ((Z.of_nat i + 1 - 1) * 5)) with (5 * i)%nat by lia.
Qed.

Lemma chunks_concat {A} (l : list A) (k : nat) :
  concat (map (fun i => firstn 5 (skipn (5 * i) l)) (seq 0 k))
  = firstn (5 * k) l.
Proof.
  induction k as [|k IH]; [done|].
  rewrite seq_S, map_app, concat_app, IH. cbn [map concat].
  rewrite app_nil_r, Nat.add_0_l.
  replace (5 * S k)%nat with (5 * k + 5)%nat by lia.
  by rewrite take_take_drop.
Qed.

(** X13.  The pages the pagination bar offers, one after the other, make
    up the filtered list: every filtered task is on exactly one page, in
    the order of the list. *)
Theorem pages_partition (filtered : list Task) :
  concat (map (currentTasks filtered) (pageButtons (totalPages filtered)))
  = filtered.
Proof.
  unfold pageButtons. rewrite map_map.
  rewrite (map_ext _ (fun i => firstn 5 (skipn (5 * i) filtered)))
    by apply currentTasks_chunk.
  rewrite chunks_concat. apply firstn_all2.
  pose proof (totalPages_bounds filtered) as Hb. unfold tasksPerPage in Hb. lia.
Qed.

Lemma currentTasks_length (filtered : list Task) (p : Z) :
  1 <= p ->
  Z.of_nat (length (currentTasks filtered p))
  = Z.max 0 (Z.min 5 (Z.of_nat (length filtered) - 5 * (p - 1))).
Proof.
  intros Hp. rewrite currentTasks_firstn_skipn by done.
  rewrite length_firstn, length_skipn. lia.
Qed.

(** X14.  For a page number [p >= 1]: every page before the last holds 5
    tasks, the last page holds between 1 and 5, and a page after the last
    is empty. *)
Theorem page_sizes (filtered : list Task) (p : Z) :
  1 <= p ->
  (p < totalPages filtered -> length (currentTasks filtered p) = 5%nat) /\
  (p = totalPages filtered ->
     (1 <= length (currentTasks filtered p) <= 5)%nat) /\
  (totalPages filtered < p -> currentTasks filtered p = []).
Proof.
  intros Hp. pose proof (currentTasks_length filtered p Hp) as Hlen.
  pose proof (totalPages_bounds filtered) as Hb. unfold tasksPerPage in Hb.
  split; [|split]; intros Hcmp.
  - lia.
  - lia.
  - apply length_zero_iff_nil. lia.
Qed.

Lemma page_sizes_witness : currentTasks (repeat task1 12) 4 = [].
Proof.
  apply (page_sizes (repeat task1 12) 4); [lia | by vm_compute].
Defined.

(** X15.  On a page in range, the text "Showing a to b of n results" names
    the rows on the screen: [a] is the position (from 1) of the first row
    in the filtered list, and [b - a + 1] is the number of rows.  On a page
    past the last, which has no rows, it reads "n to n". *)
Theorem showing_matches_rows (filtered : list Task) (p : Z) :
  (1 <= p <= totalPages filtered ->
     showingFrom filtered p = (p - 1) * 5 + 1 /\
     showingTo filtered p - showingFrom filtered p + 1
     = Z.of_nat (length (currentTasks filtered p)) /\
     forall j : nat,
       (j < length (currentTasks filtered p))%nat ->
       nth_error (currentTasks filtered p) j
       = nth_error filtered (Z.to_nat (showingFrom filtered p - 1) + j)) /\
  (totalPages filtered < p -> 1 <= p ->
     showingFrom filtered p = Z.of_nat (length filtered) /\
     showingTo filtered p = Z.of_nat (length filtered) /\
     currentTasks filtered p = []).
Proof.
  pose proof (totalPages_bounds filtered) as Hb. unfold tasksPerPage in Hb.
  unfold showingFrom, showingTo, tasksPerPage. split.
  - intros Hp.
    assert (1 <= p) as Hp1 by lia.
    pose proof (currentTasks_length filtered p Hp1) as Hlen.
    split; [lia|]. split; [lia|].
    intros j Hj. rewrite currentTasks_firstn_skipn by done.
    rewrite nth_error_firstn.
    assert (j < 5)%nat as Hj5 by lia.
    rewrite (proj2 (Nat.ltb_lt j 5) Hj5), nth_error_skipn.
    f_equal. lia.
  - intros Hp Hp1.
    pose proof (currentTasks_length filtered p Hp1) as Hlen.
    split; [lia|]. split; [lia|]. apply length_zero_iff_nil. lia.
Qed.

Lemma showing_matches_rows_witness :
  showingTo (repeat task1 12) 3 - showingFrom (repeat task1 12) 3 + 1
  = Z.of_nat (length (currentTasks (repeat task1 12) 3)).
Proof.
  refine (proj1 (proj2 (proj1 (showing_matches_rows (repeat task1 12) 3) _))).
  by vm_compute.
Defined.

(** ** Sorting: the header clicks and the order on the screen *)

(** X16.  A click on a header makes that header the sort key.  A header
    that was not the sort key starts ascending; clicking the same header
    again alternates between descending and ascending, so three clicks
    leave what one click leaves.  The arrow is shown on the clicked header
    and on no other: up when ascending, down when descending. *)
Theorem requestSort_toggles (k : string) (cfg : SortConfig) :
  key (requestSort k cfg) = k /\
  (key cfg <> k -> direction (requestSort k cfg) = "asc") /\
  (direction (requestSort k cfg) = "asc" /\
     direction (requestSort k (requestSort k cfg)) = "desc"
   \/ direction (requestSort k cfg) = "desc" /\
     direction (requestSort k (requestSort k cfg)) = "asc") /\
  requestSort k (requestSort k (requestSort k cfg)) = requestSort k cfg /\
  (forall k',
     getSortIcon (requestSort k cfg) k'
     = if decide (k = k')
       then Some (if decide (direction (requestSort k cfg) = "asc")
                  then ArrowUpIcon else ArrowDownIcon)
       else None).
Proof.
  unfold requestSort, getSortIcon. simpl. rewrite !String.eqb_refl. simpl.
  destruct (String.eqb_spec (key cfg) k) as [Hk|Hk]; simpl.
  - destruct (String.eqb_spec (direction cfg) "asc") as [Hd|Hd]; simpl.
    + repeat split; try done; try (by right).
      intros k'. destruct (String.eqb_spec k k'); by repeat case_decide.
    + repeat split; try done; try (by left).
      intros k'. destruct (String.eqb_spec k k'); by repeat case_decide.
  - repeat split; try done; try (by left).
    intros k'. destruct (String.eqb_spec k k'); by repeat case_decide.
Qed.

Lemma requestSort_toggles_witness :
  direction (requestSort "title" {| key := "dueDate"; direction := "asc" |})
  = "asc".
Proof.
  refine (proj1 (proj2 (requestSort_toggles "title"
                          {| key := "dueDate"; direction := "asc" |})) _).
  discriminate.
Defined.

Lemma StronglySorted_weaken {A} (R S : A -> A -> Prop) (l : list A) :
  (forall x y, R x y -> S x y) -> StronglySorted R l -> StronglySorted S l.
Proof.
  intros HRS. induction 1 as [|x l _ IH Hx]; constructor; [done|].
  eapply List.Forall_impl; [|exact Hx]. apply HRS.
Qed.

Lemma StronglySorted_filter {A} (R : A -> A -> Prop) (p : A -> bool) (l : list A) :
  StronglySorted R l -> StronglySorted R (List.filter p l).
Proof.
  induction 1 as [|x l _ IH Hx]; simpl; [constructor|].
  destruct (p x); [|done]. constructor; [done|].
  by apply Forall_filter_keep.
Qed.

Lemma StronglySorted_skipn {A} (R : A -> A -> Prop) (n : nat) (l : list A) :
  StronglySorted R l -> StronglySorted R (skipn n l).
Proof.
  intros H. revert n. induction H as [|x l Hl IH Hx]; intros [|n]; simpl.
  - constructor.
  - constructor.
  - by constructor.
  - apply IH.
Qed.

Lemma StronglySorted_firstn {A} (R : A -> A -> Prop) (n : nat) (l : list A) :
  StronglySorted R l -> StronglySorted R (firstn n l).
Proof.
  intros H. revert n. induction H as [|x l Hl IH Hx]; intros [|n]; simpl.
  - constructor.
  - constructor.
  - constructor.
  - constructor; [apply IH | by apply Forall_take].
Qed.

Lemma sortable_nonempty (k : string) : sortable k = true -> k <> "".
Proof. intros H ->. discriminate. Qed.

Lemma sortConfig_runEffect (st : ListState) :
  sortConfig (runEffect st) = sortConfig st.
Proof. unfold runEffect. by destruct (filteredOf st). Qed.

Lemma handle_sortable (e : event) (st st' : ListState) :
  sortable (key (sortConfig st)) = true -> handle e st = Some st' ->
  sortable (key (sortConfig st')) = true.
Proof.
  intros Hk. unfold handle. destruct (filteredOf st) as [f|]; [|done].
  destruct e; simpl.
  - by intros [= <-].
  - by intros [= <-].
  - destruct (sortable k) eqn:Hs; [by intros [= <-] | done].
  - destruct (_ && _); [by intros [= <-] | done].
  - destruct (_ && _); [by intros [= <-] | done].
  - destruct (_ && _); [by intros [= <-] | done].
Qed.

(** In every state of the mounted screen the sort key is one of the four
    sortable headers. *)
Lemma reachable_sortable (st : ListState) :
  reachable st -> sortable (key (sortConfig st)) = true.
Proof.
  induction 1 as [l|st e st' _ IH He]; rewrite sortConfig_runEffect.
  - reflexivity.
  - by eapply handle_sortable.
Qed.

Lemma sortedTasks_inOrder (tasks : list Task) (sortConfig : SortConfig) :
  key sortConfig <> "" ->
  StronglySorted (inOrder sortConfig) (sortedTasks tasks sortConfig).
Proof.
  intros Hk.
  eapply StronglySorted_weaken; [|by apply sortedTasks_StronglySorted].
  intros a b. unfold cmp_le, inOrder. apply compareTasks_le.
Qed.

(** X17.  In every state the mounted list screen can reach, whenever the
    render goes through, the filtered list, and so the rows of the page on
    the screen, are in the order of the current sort configuration: going
    down the rows, the value on the sort key never decreases when the
    direction is ascending and never increases otherwise. *)
Theorem rows_in_order (st : ListState) (filtered : list Task) :
  reachable st -> filteredOf st = Ret filtered ->
  StronglySorted (inOrder (sortConfig st)) filtered /\
  StronglySorted (inOrder (sortConfig st))
    (currentTasks filtered (currentPage st)).
Proof.
  intros Hr Hf.
  assert (StronglySorted (inOrder (sortConfig st)) filtered) as Hs.
  { unfold filteredOf in Hf. rewrite filteredTasks_spec in Hf.
    pose proof (sortedTasks_inOrder (tasks st) (sortConfig st)
                  (sortable_nonempty _ (reachable_sortable st Hr))) as Hsorted.
    destruct (searchTerm st =? "")%string; [by injection Hf as <-|].
    cbv zeta in Hf. destruct (existsb _ _); [discriminate|].
    injection Hf as <-. by apply StronglySorted_filter. }
  split; [done|].
  rewrite currentTasks_firstn_skipn by by apply reachable_page_ge_1.
  by apply StronglySorted_firstn, StronglySorted_skipn.
Qed.

Lemma rows_in_order_witness :
  StronglySorted
    (inOrder {| key := "dueDate"; direction := "asc" |})
    (sortedTasks [task1; task2; task3] {| key := "dueDate"; direction := "asc" |}).
Proof.
  refine (proj1 (rows_in_order (runEffect (initialState [task1; task2; task3]))
                   (sortedTasks [task1; task2; task3]
                      {| key := "dueDate"; direction := "asc" |}) _ _)).
  - apply reach_mount.
  - by vm_compute.
Defined.

(** ** Searching: narrowing, and the case of the search term *)






Lemma filteredTasks_searchable (l : list Task) (searchTerm : string) :
  searchTerm <> "" -> Forall searchable l ->
  filteredTasks l searchTerm
  = Ret (List.filter (accepts (matchesSearch (JS.toLowerCase searchTerm))) l).
Proof.
  intros Hne Hl. rewrite filteredTasks_spec.
  apply String.eqb_neq in Hne. rewrite Hne. cbv zeta.
  by rewrite existsb_throws_searchable.
Qed.





Lemma lowerChar_idempotent (c : ascii) :
  JS.lowerChar (JS.lowerChar c) = JS.lowerChar c.
Proof. by destruct c as [[] [] [] [] [] [] [] []]; vm_compute. Qed.

Lemma toLowerCase_idempotent (s : string) :
  JS.toLowerCase (JS.toLowerCase s) = JS.toLowerCase s.
Proof.
  induction s as [|c s IH]; simpl; [done|].
  by rewrite lowerChar_idempotent, IH.
Qed.

Lemma toLowerCase_empty (s : string) : JS.toLowerCase s = "" <-> s = "".
Proof. by destruct s. Qed.

(** X19.  The search does not see the case of the search term: two terms
    with the same lower-casing give the same result on every list (the
    same tasks, or the same exception), and so a term and its lower-casing
    do. *)
Theorem search_term_case (l : list Task) (s1 s2 : string) :
  (JS.toLowerCase s1 = JS.toLowerCase s2 ->
     filteredTasks l s1 = filteredTasks l s2) /\
  filteredTasks l (JS.toLowerCase s1) = filteredTasks l s1.
Proof.
  assert (forall a b, JS.toLowerCase a = JS.toLowerCase b ->
                      filteredTasks l a = filteredTasks l b) as H.
  { intros a b Hab. rewrite !filteredTasks_spec. cbv zeta. rewrite Hab.
    destruct (String.eqb_spec a "") as [->|Ha], (String.eqb_spec b "") as [->|Hb];
      try done.
    - exfalso. apply Hb, toLowerCase_empty. by rewrite <- Hab.
    - exfalso. apply Ha, toLowerCase_empty. by rewrite Hab. }
  split; [apply H|]. apply H, toLowerCase_idempotent.
Qed.

Lemma search_term_case_witness :
  filteredTasks [task1; task2; task3] "HiGh"
  = filteredTasks [task1; task2; task3] "high".
Proof.
  refine (proj1 (search_term_case [task1; task2; task3] "HiGh" "high") _).
  reflexivity.
Defined.

(** ** Styling *)

(** X20.  A status other than "Completed" and "In Progress", a missing
    one included, is styled as "Pending", and the three statuses have three
    different styles; in the same way a priority other than "High" and
    "Medium" is styled as "Low". *)
Theorem classes_default (status priority : option string) :
  (getStatusClasses status = getStatusClasses (Some "Pending")
   <-> status <> Some "Completed" /\ status <> Some "In Progress") /\
  (getStatusClasses status = getStatusClasses (Some "Completed")
   <-> status = Some "Completed") /\
  (getStatusClasses status = getStatusClasses (Some "In Progress")
   <-> status = Some "In Progress") /\
  (getPriorityClasses priority = getPriorityClasses (Some "Low")
   <-> priority <> Some "High" /\ priority <> Some "Medium") /\
  (getPriorityClasses priority = getPriorityClasses (Some "High")
   <-> priority = Some "High") /\
  (getPriorityClasses priority = getPriorityClasses (Some "Medium")
   <-> priority = Some "Medium").
Proof.
  unfold getStatusClasses, getPriorityClasses.
  repeat split; repeat case_bool_decide; try done; try congruence;
    try (intros [? ?]; congruence).
Qed.

(** ** View router: deleting, cancelling, the edit screen *)

Lemma findTask_Some (id : option string) (l : list Task) (t : Task) :
  findTask id l = Some t -> In t l /\ t !! "id" = id.
Proof.
  unfold findTask. intros H. apply find_some in H as [Hin Hid].
  by apply bool_decide_eq_true in Hid.
Qed.

Lemma findTask_deleted (taskId : string) (l : list Task) :
  findTask (Some taskId) (deleteTask taskId l) = None.
Proof.
  apply findTask_absent. intros t Hin. by apply deleteTask_In in Hin as [_ ?].
Qed.

(** X21.  Asking to delete a task with a non-empty id and confirming:
    the dialog named the first record with that id; after the confirm the
    collection is the old one without the records of that id, the view is
    the one it was, nothing is selected and the dialog is closed.  A second
    confirm does nothing, and asking again for the same id opens no dialog,
    since no record has the id any more. *)
Theorem delete_confirmed (taskId : string) (st : Router.State) :
  taskId <> "" ->
  let asked := Router.handleDeleteInitiate (Some taskId) st in
  let after := Router.handleDeleteConfirm asked in
  Router.modalTask asked = findTask (Some taskId) (Router.tasks st) /\
  Router.tasks after = deleteTask taskId (Router.tasks st) /\
  Router.currentView after = Router.currentView st /\
  Router.selectedTaskId after = Router.Null /\
  Router.modalTask after = None /\
  Router.handleDeleteConfirm after = after /\
  Router.modalTask (Router.handleDeleteInitiate (Some taskId) after) = None.
Proof.
  intros Hne. cbv zeta. unfold Router.handleDeleteConfirm. simpl.
  apply String.eqb_neq in Hne. rewrite Hne. simpl.
  repeat split. unfold Router.modalTask. simpl. apply findTask_deleted.
Qed.

Lemma delete_confirmed_witness :
  Router.tasks
    (Router.handleDeleteConfirm
       (Router.handleDeleteInitiate (Some "t2")
          (Router.initial [task1; task2; task3])))
  = deleteTask "t2" [task1; task2; task3].
Proof.
  refine (proj1 (proj2 (delete_confirmed "t2"
                          (Router.initial [task1; task2; task3]) _))).
  discriminate.
Defined.

(** X22.  A record whose id is absent or empty can be neither deleted nor
    edited from the screen.  Asking to delete it opens the dialog for it,
    but the confirm changes nothing, the dialog included; and the edit
    screen for it renders nothing and goes back to the list. *)
Theorem record_without_id_is_stuck (v : option string) (st : Router.State) :
  JS.truthy v = false ->
  let asked := Router.handleDeleteInitiate v st in
  let editing := Router.navigateToEdit v st in
  Router.modalTask asked = findTask v (Router.tasks st) /\
  Router.handleDeleteConfirm asked = asked /\
  Router.renderView editing = (Router.Nothing, Router.navigateToList editing) /\
  fst (Router.renderView (Router.navigateToList editing)) = Router.ListScreen /\
  Router.tasks (Router.navigateToList editing) = Router.tasks st.
Proof.
  intros Hv. cbv zeta. split; [done|]. split; [|split; [|done]].
  - unfold Router.handleDeleteConfirm. simpl.
    destruct v as [s|]; [|done]. simpl in Hv.
    apply negb_false_iff in Hv. by rewrite Hv.
  - unfold Router.renderView, Router.taskToEdit. simpl. by rewrite Hv.
Qed.

Lemma record_without_id_is_stuck_witness :
  Router.handleDeleteConfirm
    (Router.handleDeleteInitiate None (Router.initial [delete "id" task1]))
  = Router.handleDeleteInitiate None (Router.initial [delete "id" task1]).
Proof.
  refine (proj1 (proj2 (record_without_id_is_stuck None
                          (Router.initial [delete "id" task1]) _))).
  reflexivity.
Defined.

Example dialog_for_record_without_id :
  Router.modalTask
    (Router.handleDeleteInitiate None (Router.initial [delete "id" task1]))
  = Some (delete "id" task1).
Proof. vm_compute. reflexivity. Qed.



Lemma renderView_EditForm (st : Router.State) (t : Task) :
  fst (Router.renderView st) = Router.EditForm t ->
  Router.currentView st = Router.EDIT /\
  snd (Router.renderView st) = st /\
  In t (Router.tasks st) /\
  exists id, id <> "" /\ t !! "id" = Some id /\
             Router.selectedTaskId st = Router.Id (Some id) /\
             findTask (Some id) (Router.tasks st) = Some t.
Proof.
  unfold Router.renderView, Router.taskToEdit.
  destruct (Router.currentView st); try discriminate.
  destruct (Router.selectedTaskId st) as [|v]; simpl; [discriminate|].
  destruct (JS.truthy v) eqn:Hv; [|discriminate].
  apply truthy_Some in Hv as (id & -> & Hid).
  destruct (findTask (Some id) (Router.tasks st)) as [t'|] eqn:Hf;
    simpl; [|discriminate].
  intros [= <-]. apply findTask_Some in Hf as Hf'. destruct Hf' as [Hin Hid'].
  repeat split; try done. by exists id.
Qed.

(** X24.  The edit form is only ever rendered for a task that is in the
    collection: the task found under the selected id, which is not empty.
    Otherwise the edit view renders nothing and goes back to the list,
    which then renders; no view but the edit view changes the state when
    it renders. *)
Theorem edit_form_needs_its_task (st : Router.State) :
  (forall t, fst (Router.renderView st) = Router.EditForm t ->
     snd (Router.renderView st) = st /\ In t (Router.tasks st) /\
     exists id, id <> "" /\ t !! "id" = Some id /\
                Router.selectedTaskId st = Router.Id (Some id)) /\
  (fst (Router.renderView st) = Router.Nothing ->
     Router.currentView st = Router.EDIT /\
     Router.taskToEdit st = None /\
     snd (Router.renderView st) = Router.navigateToList st /\
     fst (Router.renderView (snd (Router.renderView st))) = Router.ListScreen) /\
  (Router.currentView st <> Router.EDIT -> snd (Router.renderView st) = st).
Proof.
  split; [|split].
  - intros t Ht. apply renderView_EditForm in Ht
      as (_ & ? & ? & id & ? & ? & ? & _). eauto 10.
  - unfold Router.renderView. destruct (Router.currentView st); try discriminate.
    by destruct (Router.taskToEdit st).
  - unfold Router.renderView. by destruct (Router.currentView st).
Qed.

Lemma edit_form_needs_its_task_witness :
  In task2 [task1; task2; task3].
Proof.
  refine (proj1 (proj2 (proj1 (edit_form_needs_its_task
                                 (Router.navigateToEdit (Some "t2")
                                    (Router.initial [task1; task2; task3])))
                          task2 _))).
  by vm_compute.
Defined.

(** ** The app as a whole *)

Lemma initialValues_new_searchable (today : string) :
  searchable (initialValues None today).
Proof. repeat constructor; by eexists. Qed.

Lemma formSaves_searchable (taskToEdit : option Task) (saved : Obj) :
  match taskToEdit with
  | Some t => searchable t
  | None => True
  end ->
  formSaves taskToEdit saved -> searchable saved.
Proof.
  intros Ht (today & events & Hev & Hsave).
  apply handleSubmit_saved in Hsave as [-> _].
  assert (searchable (initialValues taskToEdit today)) as Hinit.
  { destruct taskToEdit; [done | apply initialValues_new_searchable]. }
  unfold searchable in Hinit |- *. rewrite List.Forall_forall in Hinit.
  apply List.Forall_forall. intros f Hf.
  apply (fields_kept (isEditing taskToEdit)); [done|]. by apply Hinit.
Qed.

Lemma updateTask_Forall (P : Task -> Prop) (t : Task) (l : list Task) :
  P t -> Forall P l -> Forall P (updateTask t l).
Proof.
  intros Ht. unfold updateTask. induction 1 as [|x l Hx _ IH]; simpl;
    constructor; [by destruct (bool_decide _) | done].
Qed.

Lemma tasks_renderView (st : Router.State) :
  Router.tasks (snd (Router.renderView st)) = Router.tasks st.
Proof.
  unfold Router.renderView. destruct (Router.currentView st); try done.
  by destruct (Router.taskToEdit st).
Qed.

Lemma tasks_handleDeleteConfirm (st : Router.State) :
  Router.tasks (Router.handleDeleteConfirm st) = Router.tasks st \/
  exists taskId,
    Router.tasks (Router.handleDeleteConfirm st)
    = deleteTask taskId (Router.tasks st).
Proof.
  unfold Router.handleDeleteConfirm.
  destruct (Router.selectedTaskId st) as [|[taskId|]]; [by left| |by left].
  destruct (negb _); [right; by exists taskId | by left].
Qed.

Lemma appStep_searchable (st st' : Router.State) :
  appStep st st' ->
  Forall searchable (Router.tasks st) -> Forall searchable (Router.tasks st').
Proof.
  intros Hstep Hs.
  destruct Hstep as [st _|st t _ _|st t _ _|st freshId saved _ Hsave
                    |st t saved Hform Hsave|st _|st t _|st t _|st]; simpl;
    try done.
  - unfold addTask. apply Forall_app. split; [done|].
    constructor; [|done].
    apply searchable_insert_id. by apply (formSaves_searchable None).
  - apply updateTask_Forall; [|done].
    apply (formSaves_searchable (Some t)); [|done].
    apply renderView_EditForm in Hform as (_ & _ & Hin & _).
    by apply (proj1 (List.Forall_forall _ _) Hs).
  - destruct (tasks_handleDeleteConfirm st) as [->|[taskId ->]]; [done|].
    by apply Forall_filter_keep.
  - by rewrite tasks_renderView.
Qed.

(** X25.  The app never makes a record the search would throw on: when
    every loaded task has the four searchable fields, so has every task of
    every state the app can reach by creating, editing and deleting through
    its screens, and in each such state the list screen's filter returns a
    result for every search term and sort configuration. *)
Theorem app_keeps_tasks_searchable (loaded : list Task) (st : Router.State) :
  Forall searchable loaded -> appReachable loaded st ->
  Forall searchable (Router.tasks st) /\
  forall searchTerm sortConfig,
    exists filtered,
      filteredTasks (sortedTasks (Router.tasks st) sortConfig) searchTerm
      = Ret filtered.
Proof.
  intros Hl Hr.
  assert (Forall searchable (Router.tasks st)) as Hs.
  { apply (rtc_ind_r (R := appStep)
             (fun st => Forall searchable (Router.tasks st))
             (Router.initial loaded)); [done| |exact Hr].
    intros st1 st2 _ Hstep IH. by eapply appStep_searchable. }
  split; [done|]. intros searchTerm sortConfig.
  destruct (String.eqb_spec searchTerm "") as [->|Hne]; [by eexists|].
  eexists. apply filteredTasks_searchable; [done|].
  eapply Permutation_Forall; [|exact Hs].
  symmetry. apply sortedTasks_Permutation.
Qed.

Lemma app_keeps_tasks_searchable_witness :
  Forall searchable
    (Router.tasks
       (Router.handleDeleteConfirm
          (Router.handleDeleteInitiate (task2 !! "id")
             (Router.initial [task1; task2; task3])))).
Proof.
  refine (proj1 (app_keeps_tasks_searchable [task1; task2; task3] _ _ _)).
  - repeat constructor; by eexists.
  - eapply rtc_l; [apply (step_delete_initiate _ task2); [done | right; by left]|].
    eapply rtc_l; [by apply (step_delete_confirm _ task2)|].
    apply rtc_refl.
Defined.

Lemma appStep_view (st st' : Router.State) :
  appStep st st' ->
  Router.currentView st <> Router.DELETE /\
  (Router.currentView st = Router.CREATE ->
     Router.selectedTaskId st = Router.Null) /\
  (Router.showDeleteModal st = false ->
     Router.currentView st <> Router.EDIT ->
     Router.selectedTaskId st = Router.Null) ->
  Router.currentView st' <> Router.DELETE /\
  (Router.currentView st' = Router.CREATE ->
     Router.selectedTaskId st' = Router.Null) /\
  (Router.showDeleteModal st' = false ->
     Router.currentView st' <> Router.EDIT ->
     Router.selectedTaskId st' = Router.Null).
Proof.
  intros Hstep (Hd & Hc & Hn).
  destruct Hstep as [st Hv|st t Hv _|st t Hv _|st freshId saved _ _
                    |st t saved _ _|st _|st t _|st t _|st]; simpl;
    try (by repeat split; try done; try congruence).
  - unfold Router.handleDeleteConfirm.
    destruct (Router.selectedTaskId st) as [|[taskId|]] eqn:Hsel;
      [intuition congruence| |intuition congruence].
    destruct (negb _); simpl; intuition congruence.
  - unfold Router.renderView.
    destruct (Router.currentView st) eqn:Hv; simpl;
      try (rewrite Hv; intuition congruence).
    destruct (Router.taskToEdit st); simpl; [rewrite Hv|];
      intuition congruence.
Qed.

(** X26.  In every state the app can reach, the view is the list, the
    create form or the edit form (the fourth view constant, DELETE, is
    never entered: deleting is a dialog over the current view); nothing is
    selected while the create form is up; and outside the edit view a
    task is selected only while the delete dialog is asked for. *)
Theorem app_views (loaded : list Task) (st : Router.State) :
  appReachable loaded st ->
  Router.currentView st <> Router.DELETE /\
  (Router.currentView st = Router.CREATE ->
     Router.selectedTaskId st = Router.Null) /\
  (Router.showDeleteModal st = false ->
     Router.currentView st <> Router.EDIT ->
     Router.selectedTaskId st = Router.Null).
Proof.
  intros Hr.
  apply (rtc_ind_r (R := appStep)
           (fun st =>
              Router.currentView st <> Router.DELETE /\
              (Router.currentView st = Router.CREATE ->
                 Router.selectedTaskId st = Router.Null) /\
              (Router.showDeleteModal st = false ->
                 Router.currentView st <> Router.EDIT ->
                 Router.selectedTaskId st = Router.Null))
           (Router.initial loaded)); [done| |exact Hr].
  intros st1 st2 _ Hstep IH. by eapply appStep_view.
Qed.

Lemma app_views_witness :
  Router.currentView
    (Router.navigateToCreate (Router.initial [task1])) <> Router.DELETE.
Proof.
  refine (proj1 (app_views [task1] _ _)).
  eapply rtc_l; [by apply step_create | apply rtc_refl].
Defined.

(** ** Ids stay unique; page buttons stay in range *)

(** X27.  The repository keeps ids unique: in a collection without
    duplicate ids, an update and a delete leave the ids without duplicates,
    and so does an add whose generated id is not in use; an update changes
    no id at all. *)
Theorem repository_keeps_ids_unique (prev : list Task) (t : Task)
    (taskId id : string) (newTaskData : Obj) :
  unique_ids prev ->
  unique_ids (updateTask t prev) /\
  map (fun x : Task => x !! "id") (updateTask t prev)
  = map (fun x : Task => x !! "id") prev /\
  unique_ids (deleteTask taskId prev) /\
  ((forall x, In x prev -> x !! "id" <> Some id) ->
     unique_ids (addTask id newTaskData prev)).
Proof.
  intros Hu. split; [by apply updateTask_unique_ids|].
  split; [apply updateTask_ids|].
  split; [by apply deleteTask_unique_ids | by apply addTask_unique_ids].
Qed.

Lemma repository_keeps_ids_unique_witness :
  unique_ids (addTask "t9" task1 [task2; task3]).
Proof.
  refine (proj2 (proj2 (proj2 (repository_keeps_ids_unique [task2; task3]
                                 task2 "t2" "t9" task1 _))) _).
  - unfold unique_ids. repeat constructor; simpl; intuition discriminate.
  - intros x [<-|[<-|[]]]; discriminate.
Defined.

(** X28.  The page buttons never leave the range: in a reachable state
    they exist only when there are at least two pages, Previous goes to the
    page before and Next to the page after, a click on a page number goes
    to that page, the new page is within 1..totalPages, and the
    page-correction effect that follows changes nothing. *)
Theorem page_buttons_stay_in_range (st st' : ListState) (e : event)
    (filtered : list Task) :
  reachable st -> filteredOf st = Ret filtered ->
  (e = Previous \/ e = Next \/ exists p, e = PageClicked p) ->
  handle e st = Some st' ->
  1 < totalPages filtered /\
  filteredOf st' = Ret filtered /\
  1 <= currentPage st' <= totalPages filtered /\
  (e = Previous -> currentPage st' = currentPage st - 1) /\
  (e = Next -> currentPage st' = currentPage st + 1) /\
  (forall p, e = PageClicked p -> currentPage st' = p) /\
  runEffect st' = st'.
Proof.
  intros Hr Hf He Hh.
  pose proof (reachable_page_in_range st filtered Hr Hf) as Hin.
  unfold page_in_range in Hin. unfold handle in Hh. rewrite Hf in Hh.
  assert (forall p, 1 < totalPages filtered -> 1 <= p <= totalPages filtered ->
            let s := {| tasks := tasks st; sortConfig := sortConfig st;
                        searchTerm := searchTerm st; currentPage := p |} in
            filteredOf s = Ret filtered /\ runEffect s = s) as Hset.
  { intros p Htp Hp. cbv zeta.
    assert (filteredOf {| tasks := tasks st; sortConfig := sortConfig st;
                          searchTerm := searchTerm st; currentPage := p |}
            = Ret filtered) as Hf' by exact Hf.
    split; [done|]. unfold runEffect. rewrite Hf'. simpl. f_equal.
    apply pageEffect_clamps; lia. }
  destruct He as [->|[->|[p ->]]].
  - destruct (Z.gtb_spec (totalPages filtered) 1) as [Htp|]; [|done].
    destruct (Z.eqb_spec (currentPage st) 1) as [|Hne]; [done|].
    simpl in Hh. injection Hh as <-. simpl.
    destruct (Hset (Z.max 1 (currentPage st - 1))) as [? ?]; [lia..|].
    repeat split; try done; try lia.
  - destruct (Z.gtb_spec (totalPages filtered) 1) as [Htp|]; [|done].
    destruct (Z.eqb_spec (currentPage st) (totalPages filtered)) as [|Hne];
      [done|].
    simpl in Hh. injection Hh as <-. simpl.
    destruct (Hset (Z.min (totalPages filtered) (currentPage st + 1)))
      as [? ?]; [lia..|].
    repeat split; try done; try lia.
  - destruct (Z.gtb_spec (totalPages filtered) 1) as [Htp|]; [|done].
    destruct (Z.leb_spec 1 p); [|done].
    destruct (Z.leb_spec p (totalPages filtered)); [|done].
    simpl in Hh. injection Hh as <-. simpl.
    destruct (Hset p) as [? ?]; [lia..|].
    repeat split; try done; try lia. by intros ? [= <-].
Qed.

Lemma page_buttons_stay_in_range_witness :
  currentPage
    {| tasks := [task1; task2; task3; task1; task2; task3];
       sortConfig := {| key := "dueDate"; direction := "asc" |};
       searchTerm := ""; currentPage := 2 |}
  = currentPage (runEffect (initialState [task1; task2; task3; task1; task2; task3]))
    + 1.
Proof.
  refine (proj1 (proj2 (proj2 (proj2 (proj2
            (page_buttons_stay_in_range
               (runEffect (initialState [task1; task2; task3; task1; task2; task3]))
               _ Next
               (sortedTasks [task1; task2; task3; task1; task2; task3]
                  {| key := "dueDate"; direction := "asc" |})
               _ _ _ _))))) _).
  - apply reach_mount.
  - by vm_compute.
  - right; by left.
  - by vm_compute.
  - reflexivity.
Defined.

(** ** Instances on the sample data *)

Lemma validateTaskForm_description_dueDate_witness :
  validateTaskForm (<["description" := "  "]> task1) !! "description"
  = Some description_required.
Proof.
  refine (proj2 (proj1 (validateTaskForm_description_dueDate
                          (<["description" := "  "]> task1))) _).
  by vm_compute; repeat constructor.
Defined.

Lemma validate_accepts_iff_witness : validate task1 = true.
Proof.
  refine (proj2 (validate_accepts_iff task1) _).
  split; [|split].
  - exists "Write report". split; [done|]. split; [|by vm_compute; lia].
    intros H. apply trim_empty in H. by vm_compute in H.
  - exists "Quarterly numbers". split; [done|].
    intros H. apply trim_empty in H. by vm_compute in H.
  - by exists "2024-05-01".
Defined.

Lemma handleChange_clears_without_validating_witness :
  Form.errorOf
    (Form.handleChange "title" "x"
       (fst (handleSubmit (Form.init (initialValues None "2024-06-01")))))
    "description"
  = Form.errorOf
      (fst (handleSubmit (Form.init (initialValues None "2024-06-01"))))
      "description".
Proof.
  refine (proj2 (proj2 (proj2 (handleChange_clears_without_validating "title" "x"
            (fst (handleSubmit (Form.init (initialValues None "2024-06-01"))))))
            "description" _)).
  discriminate.
Defined.

Lemma handleSubmit_saves_iff_valid_witness :
  snd (handleSubmit (Form.init task1)) = Some task1.
Proof.
  refine (proj2 (proj1 (handleSubmit_saves_iff_valid (Form.init task1)) task1) _).
  split; [reflexivity | by vm_compute].
Defined.

Lemma classes_default_witness :
  getStatusClasses None = getStatusClasses (Some "Pending").
Proof.
  refine (proj2 (proj1 (classes_default None None)) _).
  split; discriminate.
Defined.

(** After a rejected submit of the empty create form, typing one letter
    into the title removes the title message although one letter is not a
    valid title. *)
Example title_error_cleared_not_checked :
  let rejected := fst (handleSubmit (Form.init (initialValues None "2024-06-01"))) in
  Form.errorOf rejected "title" = Some title_required /\
  Form.errorOf (Form.handleChange "title" "x" rejected) "title" = None /\
  validate (Form.values (Form.handleChange "title" "x" rejected)) = false.
Proof. by vm_compute. Qed.
